(** * AI-Web_Scraper: the extraction routine of [app.py]

    A shallow embedding of [extract_visible_text], [clean_and_structure_text]
    and the button handler of [app.py], with the properties of the
    specification stated and proved over it.

    Scope of the model.  Text is modelled by [string] (one [ascii] per
    character), so the statements cover documents whose characters are ASCII:
    [str.strip] removes the ASCII characters for which [str.isspace] holds and
    [str.upper] maps [a-z] to [A-Z].  The HTTP client, the HTML parser, the
    tokenizer, the chat-completion client and the document store are
    collaborators outside the repository; they enter as the fields of the
    record [World].
    The tree operations of the parsed document that the routine calls
    ([descendants], [get_text], [find_all], [decompose], [.name], [.body])
    are written out on an inductive tree. *)

From Stdlib Require Import String Ascii List Bool Arith Lia.
From Stdlib Require Import Sorting.Sorted Sorting.Permutation.
From Stdlib Require Import DecimalString.
Import ListNotations.
Open Scope string_scope.
Set Warnings "-register-all,-abstract-large-number".

(* ================================================================== *)
(** ** Python [str] methods used by the program *)

Module PyStr.

(** The line feed, written ["\n"] in the source. *)
Definition nl : string := String (ascii_of_nat 10) EmptyString.

(** [str.isspace] on one ASCII character: tab, line feed, vertical tab,
    form feed, carriage return, the four separators 28..31 and space. *)
Definition is_space (c : ascii) : bool :=
  let n := nat_of_ascii c in
  (((9 <=? n) && (n <=? 13)) || ((28 <=? n) && (n <=? 32)))%nat.

(** Truth value of a string: [if text:]. *)
Definition truthy (s : string) : bool :=
  match s with EmptyString => false | String _ _ => true end.

Fixpoint lstrip (s : string) : string :=
  match s with
  | EmptyString => EmptyString
  | String c r => if is_space c then lstrip r else s
  end.

Fixpoint rstrip (s : string) : string :=
  match s with
  | EmptyString => EmptyString
  | String c r =>
      match rstrip r with
      | EmptyString => if is_space c then EmptyString else String c EmptyString
      | r' => String c r'
      end
  end.

(** [s.strip()] *)
Definition strip (s : string) : string := rstrip (lstrip s).

Definition upper_char (c : ascii) : ascii :=
  let n := nat_of_ascii c in
  if ((97 <=? n) && (n <=? 122))%nat then ascii_of_nat (n - 32) else c.

(** [s.upper()] *)
Fixpoint upper (s : string) : string :=
  match s with
  | EmptyString => EmptyString
  | String c r => String (upper_char c) (upper r)
  end.

(** [s.startswith(p)] *)
Definition startswith (s p : string) : bool := prefix p s.

(** [p in s] : [p] occurs in [s] as a contiguous substring. *)
Fixpoint contains (p s : string) : bool :=
  prefix p s ||
  match s with
  | EmptyString => false
  | String _ r => contains p r
  end.

(** [sep.join(l)] *)
Definition join (sep : string) (l : list string) : string := String.concat sep l.

End PyStr.
Import PyStr.

(* ================================================================== *)
(** ** The parsed document *)

Module Bs4.

(** A node of the parse tree: an element with its tag name, attributes and
    ordered children, a text node, or a comment.  Attributes are the
    dictionary of the element, as a list of distinct keys with values.
    [Comment] stands for every string that [get_text] of a p, li, div, span
    or heading leaves out: comments, declarations and doctypes, and the
    strings the parser puts inside [rt], [rp] and [template] elements, which
    have classes of their own. *)
Inductive PageElement : Type :=
| Tag (name : string) (attrs : list (string * string))
      (contents : list PageElement)
| NavigableString (s : string)
| Comment (s : string).

(** [element.name]: the tag name, [None] for strings and comments. *)
Definition name (e : PageElement) : option string :=
  match e with
  | Tag n _ _ => Some n
  | _ => None
  end.

(** [element.name in names] *)
Definition name_in (names : list string) (e : PageElement) : bool :=
  match name e with
  | Some n => existsb (String.eqb n) names
  | None => false
  end.

(** [tag.descendants]: every node below [tag], in document order. *)
Fixpoint descendants (e : PageElement) : list PageElement :=
  match e with
  | Tag _ _ contents => flat_map (fun c => c :: descendants c) contents
  | _ => []
  end.

(** The strings [get_text] looks at: the text nodes below the element
    (comments are not among them). *)
Definition text_of (e : PageElement) : list string :=
  match e with
  | NavigableString s => [s]
  | _ => []
  end.

Definition all_strings (e : PageElement) : list string :=
  flat_map text_of (descendants e).

(** With [strip=True] each string is stripped and dropped when empty. *)
Definition stripped (l : list string) : list string :=
  filter truthy (map strip l).

(** [tag.get_text(strip=True)]: the stripped strings, joined by [""]. *)
Definition get_text_strip (e : PageElement) : string :=
  join "" (stripped (all_strings e)).

(** [tag[key]] and [key in tag.attrs]. *)
Fixpoint get_attr (key : string) (attrs : list (string * string))
  : option string :=
  match attrs with
  | [] => None
  | (k, v) :: r => if String.eqb k key then Some v else get_attr key r
  end.

(** [soup.find_all("a", href=True)], keeping the [href] of each match. *)
Definition href_of (e : PageElement) : list string :=
  match e with
  | Tag n attrs _ =>
      if String.eqb n "a" then
        match get_attr "href" attrs with Some v => [v] | None => [] end
      else []
  | _ => []
  end.

Definition anchor_hrefs (soup : PageElement) : list string :=
  flat_map href_of (descendants soup).

(** [for tag in soup(names): tag.decompose()]: every element below the
    root whose name is listed is cut out of the tree with all that is
    below it.  (An element found inside an already destroyed one is
    destroyed again, which changes nothing.) *)
Fixpoint decompose_all (names : list string) (e : PageElement)
  : PageElement :=
  match e with
  | Tag n a contents =>
      Tag n a
        (flat_map
           (fun c => if name_in names c then [] else [decompose_all names c])
           contents)
  | _ => e
  end.

(** [soup.body]: the first element named [body] below the root. *)
Definition body (soup : PageElement) : option PageElement :=
  find (name_in ["body"]) (descendants soup).

End Bs4.
Import Bs4.

(* ================================================================== *)
(** ** Exceptions *)

(** The exception classes the program distinguishes or meets.  All of them
    derive from [Exception]; [RequestException] stands for the class of the
    HTTP client and its subclasses (among them the error raised for a 4xx or
    5xx status). *)
Inductive exc_class : Type :=
| RequestException
| KeyError
| NameError
| AttributeError
| OtherException.

Record exception : Type := mkExc { exc_cls : exc_class; exc_msg : string }.

Inductive result (A : Type) : Type :=
| Ok (a : A)
| Raise (e : exception).
Arguments Ok {A} a.
Arguments Raise {A} e.

(* ================================================================== *)
(** ** The extraction routine, from the parsed document on *)

Module Extractor.

(** Line 77. *)
Definition noise_tags : list string :=
  ["script"; "style"; "header"; "footer"; "nav"; "form"; "noscript"; "svg";
   "aside"; "dialog"; "iframe"].

(** Line 81. *)
Definition social_domains : list string :=
  ["facebook.com"; "twitter.com"; "linkedin.com"; "instagram.com";
   "youtube.com"; "t.me"; "wa.me"].

(** Lines 92 and 97. *)
Definition heading_tags : list string := ["h1"; "h2"; "h3"; "h4"; "h5"; "h6"].
Definition container_tags : list string := ["p"; "li"; "div"; "span"].

(** [any(domain in href for domain in social_domains)] *)
Definition is_social (href : string) : bool :=
  existsb (fun domain => contains domain href) social_domains.

(** A Python [set] of strings: a list without repetition; [add] leaves the
    set alone when the string is already a member. *)
Definition set_mem (x : string) (s : list string) : bool :=
  existsb (String.eqb x) s.

Definition set_add (x : string) (s : list string) : list string :=
  if set_mem x s then s else s ++ [x].

(** Lines 82-85. *)
Definition collect_step (social_links : list string) (href : string)
  : list string :=
  if is_social href then set_add (strip href) social_links else social_links.

Definition collect_social_links (soup : PageElement) : list string :=
  fold_left collect_step (anchor_hrefs soup) [].

(** [sorted(social_links)]: ascending in the order of [str], which compares
    character codes from the left. *)
Fixpoint insert_sorted (x : string) (l : list string) : list string :=
  match l with
  | [] => [x]
  | y :: r => if String.leb x y then x :: l else y :: insert_sorted x r
  end.

Definition sorted (l : list string) : list string :=
  fold_right insert_sorted [] l.

(** The state of the walk: lines 87-89. *)
Record walk_state : Type := mkWalk {
  content_blocks : list string;
  current_heading : option PageElement;
  block : list string
}.

Definition walk_init : walk_state :=
  {| content_blocks := []; current_heading := None; block := [] |}.

(** The f-string of lines 94 and 103. *)
Definition heading_block (heading : PageElement) (blk : list string)
  : string :=
  "=== " ++ upper (get_text_strip heading) ++ " ===" ++ nl
    ++ strip (join " " blk).

(** [current_heading and block]: an element is always true, a list is true
    when it is not empty. *)
Definition pending (st : walk_state) : option string :=
  match current_heading st, block st with
  | Some h, _ :: _ => Some (heading_block h (block st))
  | _, _ => None
  end.

(** The loop body, lines 92-100. *)
Definition visit (st : walk_state) (element : PageElement) : walk_state :=
  if name_in heading_tags element then
    {| content_blocks :=
         match pending st with
         | Some b => content_blocks st ++ [b]
         | None => content_blocks st
         end;
       current_heading := Some element;
       block := [] |}
  else if name_in container_tags element then
    let text := get_text_strip element in
    if truthy text then
      {| content_blocks := content_blocks st;
         current_heading := current_heading st;
         block := block st ++ [text] |}
    else st
  else st.

(** Lines 102-105. *)
Definition finish (st : walk_state) : list string :=
  match pending st with
  | Some b => content_blocks st ++ [b]
  | None =>
      match block st with
      | _ :: _ => content_blocks st ++ [strip (join nl (block st))]
      | [] => content_blocks st
      end
  end.

(** Lines 91-105: the walk over the descendants of the body. *)
Definition walk (elements : list PageElement) : list string :=
  finish (fold_left visit elements walk_init).

(** Lines 108-110. *)
Definition links_block (social_links : list string) : string :=
  "=== SOCIAL MEDIA LINKS ===" ++ nl ++ join nl (sorted social_links).

Definition with_links (blocks social_links : list string) : list string :=
  match social_links with
  | _ :: _ => blocks ++ [links_block social_links]
  | [] => blocks
  end.

(** Line 112. *)
Definition render (blocks : list string) : string :=
  join (nl ++ nl) (filter truthy blocks).

(** Lines 76-113, from the parsed [soup] to the returned text.  A document
    with no [body] element makes [soup.body] be [None], and asking it for
    its descendants raises. *)
Definition structure (soup : PageElement) : result string :=
  let soup := decompose_all noise_tags soup in
  let social_links := collect_social_links soup in
  match body soup with
  | None =>
      Raise (mkExc AttributeError
               "'NoneType' object has no attribute 'descendants'")
  | Some b =>
      Ok (render (with_links (walk (descendants b)) social_links))
  end.

End Extractor.
Import Extractor.

(** The document of the first example of the specification, as the parser
    builds it: [<body><h2>Overview</h2><p>Hello</p><p>World</p>
    <a href="https://twitter.com/x">tw</a></body>]. *)
Definition overview_body : PageElement :=
  Tag "body" []
    [Tag "h2" [] [NavigableString "Overview"];
     Tag "p" [] [NavigableString "Hello"];
     Tag "p" [] [NavigableString "World"];
     Tag "a" [("href", "https://twitter.com/x")] [NavigableString "tw"]].
Definition overview_soup : PageElement := Tag "[document]" [] [overview_body].

(* ================================================================== *)
(** ** The collaborators and the state of the application *)

(** The value of a global name: a string or [None] (what [os.getenv]
    returns), or some other object (a module, a client, a function, a
    list). *)
Inductive value : Type :=
| StrValue (s : option string)
| Object.

(** What the HTTP client hands back. *)
Record response : Type := mkResponse {
  status_code : nat;
  reason : string;
  text : string
}.

(** The collaborators of the program, each a function of its arguments:
    the HTTP client, the HTML parser, the tokenizer, the chat-completion
    client and the document store, and the environment the configuration is
    read from. *)
Record World : Type := mkWorld {
  requests_get : string -> result response;
  BeautifulSoup : string -> result PageElement;
  encoding_for_model : value -> result nat;
  get_encoding : string -> result nat;
  encode : nat -> string -> list nat;
  decode : nat -> list nat -> string;
  chat_completions_create : value -> string -> string -> result string;
  upsert_item : list (string * string) -> result unit;
  json_dumps : string -> string;
  getenv : string -> option string
}.

(** Calls that leave the process or reach the page, in the order made. *)
Inductive event : Type :=
| EvHttpGet (url : string)
| EvChat (user_content : string)
| EvUpsert (chat : list (string * string))
| EvError (msg : string)
| EvWarning (removed : nat)
| EvSuccess (msg : string)
| EvDownload (label data file_name : string).

Record app_state : Type := mkApp {
  chat_history : list (string * string);
  last_url : string;
  session_response : string;
  trace : list event
}.

(** Computations of the program: they read and change the application
    state, and either return or raise. *)
Definition M (A : Type) : Type := app_state -> result A * app_state.

Definition ret {A} (a : A) : M A := fun st => (Ok a, st).
Definition raise {A} (e : exception) : M A := fun st => (Raise e, st).
Definition mbind {A B} (m : M A) (k : A -> M B) : M B :=
  fun st =>
    match m st with
    | (Ok a, st') => k a st'
    | (Raise e, st') => (Raise e, st')
    end.
Definition lift {A} (r : result A) : M A := fun st => (r, st).
Definition emit (ev : event) : M unit :=
  fun st =>
    (Ok tt, {| chat_history := chat_history st; last_url := last_url st;
               session_response := session_response st;
               trace := trace st ++ [ev] |}).

(** [try: m  except ...: handler] *)
Definition try_except {A} (m : M A) (handler : exception -> M A) : M A :=
  fun st =>
    match m st with
    | (Ok a, st') => (Ok a, st')
    | (Raise e, st') => handler e st'
    end.

Declare Scope app_scope.
Delimit Scope app_scope with app.
Notation "x <- c ;; k" := (mbind c (fun x => k))
  (at level 61, c at next level, right associativity) : app_scope.
Notation "c ;;; k" := (mbind c (fun _ => k))
  (at level 61, right associativity) : app_scope.

Module App.
Section WithWorld.

Variable w : World.

Open Scope app_scope.

(** The names bound by the statements at the top level of [app.py], the one
    module of the program: the imports (lines 1-12), the configuration
    (lines 18-28), the clients (lines 31-42), the chat set-up and the prompt
    (lines 45-49), the four functions, and the variables of the input area
    (lines 182-200). *)
Definition module_globals : list (string * value) :=
  [("st", Object); ("requests", Object); ("BeautifulSoup", Object);
   ("urlparse", Object); ("CosmosClient", Object); ("PartitionKey", Object);
   ("AzureOpenAI", Object); ("uuid", Object); ("pd", Object);
   ("json", Object); ("os", Object); ("tiktoken", Object);
   ("BytesIO", Object);
   ("COSMOS_ENDPOINT", StrValue (getenv w "COSMOS_ENDPOINT"));
   ("COSMOS_KEY", StrValue (getenv w "COSMOS_KEY"));
   ("COSMOS_DB_NAME", StrValue (getenv w "COSMOS_DB_NAME"));
   ("COSMOS_CONTAINER_NAME", StrValue (getenv w "COSMOS_CONTAINER_NAME"));
   ("COSMOS_PARTITION_KEY", StrValue (getenv w "COSMOS_PARTITION_KEY"));
   ("AZURE_OPENAI_ENDPOINT", StrValue (getenv w "AZURE_OPENAI_ENDPOINT"));
   ("AZURE_OPENAI_KEY", StrValue (getenv w "AZURE_OPENAI_KEY"));
   ("AZURE_OPENAI_EMBEDDING_DEPLOYMENT",
     StrValue (getenv w "AZURE_OPENAI_EMBEDDING_DEPLOYMENT"));
   ("AZURE_OPENAI_CHAT_DEPLOYMENT",
     StrValue (getenv w "AZURE_OPENAI_CHAT_DEPLOYMENT"));
   ("OPENAI_API_VERSION", StrValue (Some "2024-03-01-preview"));
   ("cosmos_client", Object); ("database", Object); ("container", Object);
   ("openai_client", Object); ("session_id", Object);
   ("chat_history", Object); ("system_message", Object);
   ("extract_visible_text", Object); ("clean_and_structure_text", Object);
   ("save_to_cosmos", Object); ("create_download_buttons", Object);
   ("user_input", Object); ("response", Object); ("raw", Object)].

(** Reading a global name: a name that no statement of the module binds
    (and that is not a built-in) raises [NameError]. *)
Fixpoint lookup_name (name : string) (env : list (string * value))
  : result value :=
  match env with
  | [] => Raise (mkExc NameError ("name '" ++ name ++ "' is not defined"))
  | (k, v) :: r => if String.eqb k name then Ok v else lookup_name name r
  end.

Definition load_global (name : string) : M value :=
  lift (lookup_name name module_globals).

(** Lines 49-66. *)
Definition system_message : string := "
You are a data extraction assistant.

Your task is to extract and structure content from raw HTML copied from a public website.

Rules:
- DO NOT summarize, rewrite, or infer anything.
- Preserve ALL meaningful visible content.
- Remove all non-content elements: scripts, nav menus, cookie banners, footers, ads, accessibility or legal notices, etc.
- Group content by visible headings (e.g., OVERVIEW, EVENT DETAILS, FAQ, etc.)
- Keep line breaks, bullet points, and original wording.
- Use this format:

=== HEADING TITLE ===
(Original content...)

- Return plain text only. No HTML, JSON, or explanations.
".

(** [response.raise_for_status()] of the HTTP client: a status from 400 to
    599 raises its error, a [RequestException].  The message names the
    address asked for; the client names the address that answered, which
    differs after a redirect.  No statement below depends on the message. *)
Definition raise_for_status (url : string) (r : response) : result unit :=
  if ((400 <=? status_code r) && (status_code r <? 600))%nat then
    Raise (mkExc RequestException
             (NilEmpty.string_of_uint (Nat.to_uint (status_code r))
                ++ (if (status_code r <? 500)%nat
                    then " Client Error: " else " Server Error: ")
                ++ reason r ++ " for url: " ++ url))
  else Ok tt.

(** Lines 71-113: the body of the [try]. *)
Definition scrape (url : string) : M string :=
  emit (EvHttpGet url) ;;;
  r <- lift (requests_get w url) ;;
  lift (raise_for_status url r) ;;;
  soup <- lift (BeautifulSoup w (text r)) ;;
  lift (structure soup).

(** Lines 115-118: the two handlers. *)
Definition scrape_handler (e : exception) : M string :=
  match exc_cls e with
  | RequestException => ret ("ERROR: Failed to scrape the page: " ++ exc_msg e)
  | _ =>
      ret ("ERROR: An unexpected error occurred during scraping: "
             ++ exc_msg e)
  end.

(** Lines 69-118. *)
Definition extract_visible_text (url : string) : M string :=
  try_except (scrape url) scrape_handler.

Definition max_tokens_input : nat := 120000.

(** Lines 121-150. *)
Definition clean_and_structure_text (raw_text : string) : M string :=
  model_name <- load_global "GPT_DEPLOYMENT_NAME" ;;
  encoding <-
    try_except (lift (encoding_for_model w model_name))
      (fun e =>
         match exc_cls e with
         | KeyError => lift (get_encoding w "cl100k_base")
         | _ => raise e
         end) ;;
  let encoded_text := encode w encoding raw_text in
  truncated_text <-
    (if (max_tokens_input <? List.length encoded_text)%nat then
       let truncated_tokens := firstn max_tokens_input encoded_text in
       emit (EvWarning (List.length encoded_text
                          - List.length truncated_tokens)) ;;;
       ret (decode w encoding truncated_tokens)
     else ret raw_text) ;;
  try_except
    (emit (EvChat truncated_text) ;;;
     content <- lift (chat_completions_create w model_name system_message
                        truncated_text) ;;
     ret (strip content))
    (fun e => ret ("ERROR: GPT processing failed: " ++ exc_msg e)).

(** Lines 153-158. *)
Definition save_to_cosmos : M unit :=
  fun st =>
    (emit (EvUpsert (chat_history st)) ;;;
     lift (upsert_item w (chat_history st))) st.

(** Lines 161-165. *)
Definition create_download_buttons (content : string) : M unit :=
  emit (EvDownload "Download as .txt" content "structured.txt") ;;;
  emit (EvDownload "Download as .json" (json_dumps w content)
          "structured.json").

Definition chat_append (role content : string) : M unit :=
  fun st =>
    (Ok tt, {| chat_history := chat_history st ++ [(role, content)];
               last_url := last_url st;
               session_response := session_response st;
               trace := trace st |}).

Definition set_last_url (u : string) : M unit :=
  fun st =>
    (Ok tt, {| chat_history := chat_history st; last_url := u;
               session_response := session_response st;
               trace := trace st |}).

Definition set_response (r : string) : M unit :=
  fun st =>
    (Ok tt, {| chat_history := chat_history st; last_url := last_url st;
               session_response := r; trace := trace st |}).

Definition validation_message : string :=
  "❌ Please enter a valid URL starting with http or https.".

(** Lines 184-206: the handler of the button, run on [user_input]. *)
Definition on_extract (user_input : string) : M unit :=
  set_last_url user_input ;;;
  chat_append "user" user_input ;;;
  response <-
    (if negb (startswith user_input "http") then
       emit (EvError validation_message) ;;;
       ret validation_message
     else
       raw <- extract_visible_text user_input ;;
       if startswith raw "ERROR" then
         emit (EvError raw) ;;; ret raw
       else
         response <- clean_and_structure_text raw ;;
         emit (EvSuccess "✅ Content structured successfully!") ;;;
         create_download_buttons response ;;;
         ret response) ;;
  chat_append "bot" response ;;;
  set_response response ;;;
  save_to_cosmos.

End WithWorld.
End App.

(* ================================================================== *)
(** ** The walk as the specification words it

    The specification describes the result of the walk by sections: the
    sequence of visited nodes is cut at the heading elements, and each
    heading owns the texts of the containers met before the next heading. *)

Module WalkSpec.

Definition is_heading (e : PageElement) : bool := name_in heading_tags e.
Definition is_container (e : PageElement) : bool := name_in container_tags e.

(** The text a node adds to a block: the own text of a container, when it
    is not empty. *)
Definition container_text (e : PageElement) : list string :=
  if is_container e then
    (if truthy (get_text_strip e) then [get_text_strip e] else [])
  else [].

(** The container texts met before the next heading. *)
Fixpoint texts_until_heading (l : list PageElement) : list string :=
  match l with
  | [] => []
  | e :: r =>
      if is_heading e then [] else container_text e ++ texts_until_heading r
  end.

(** Every heading with the container texts that follow it. *)
Fixpoint headed_sections (l : list PageElement)
  : list (PageElement * list string) :=
  match l with
  | [] => []
  | e :: r =>
      if is_heading e then (e, texts_until_heading r) :: headed_sections r
      else headed_sections r
  end.

Definition has_content (sec : PageElement * list string) : bool :=
  match snd sec with [] => false | _ :: _ => true end.

(** One block per heading that has content, in the order of the headings. *)
Definition labeled_blocks (l : list PageElement) : list string :=
  map (fun sec =>
         "=== " ++ upper (get_text_strip (fst sec)) ++ " ===" ++ nl
           ++ strip (join " " (snd sec)))
      (filter has_content (headed_sections l)).

(** The residual block of a document without any heading. *)
Definition unlabeled_blocks (l : list PageElement) : list string :=
  if existsb is_heading l then []
  else match texts_until_heading l with
       | [] => []
       | _ :: _ => [join nl (texts_until_heading l)]
       end.

(** The nodes that survive the noise filter: those with no listed element
    on the way up to the root. *)
Fixpoint kept (names : list string) (e : PageElement) : list PageElement :=
  match e with
  | Tag _ _ contents =>
      flat_map (fun c => if name_in names c then [] else c :: kept names c)
        contents
  | _ => []
  end.

(** A string that [strip] leaves alone and that is not empty: it begins
    and ends with a character that is not white space. *)
Definition tight (s : string) : Prop :=
  lstrip s = s /\ rstrip s = s /\ s <> "".

End WalkSpec.
Import WalkSpec.

(* ================================================================== *)
(** ** Notions used in the statements *)

(** What [lstrip] returns is empty or begins with a character that is not
    white space. *)
Definition starts_clean (s : string) : Prop :=
  match s with
  | EmptyString => True
  | String c _ => is_space c = false
  end.

(** The blocks a state still owes: the block of the pending heading with
    the texts [more] that are yet to come. *)
Definition owed (st : walk_state) (more : list string) : list string :=
  match current_heading st, (block st ++ more)%list with
  | Some h, _ :: _ => [heading_block h (block st ++ more)%list]
  | _, _ => []
  end.

(** A place in a document where nodes can be put: among the children of an
    element, at any depth. *)
Inductive place : Type :=
| Here (n : string) (a : list (string * string))
       (before after : list PageElement)
| Below (n : string) (a : list (string * string))
        (before : list PageElement) (inner : place)
        (after : list PageElement).

Fixpoint plug (p : place) (nodes : list PageElement) : PageElement :=
  match p with
  | Here n a before after => Tag n a (before ++ nodes ++ after)%list
  | Below n a before inner after =>
      Tag n a (before ++ plug inner nodes :: after)%list
  end.

(** The reading of the links set without the trim: its members are the
    address values themselves. *)
Definition links_are_href_values (soup : PageElement) : Prop :=
  let filtered := decompose_all noise_tags soup in
  forall x : string,
    In x (collect_social_links filtered) <->
    In x (anchor_hrefs filtered) /\ is_social x = true.

Definition str_le (a b : string) : Prop := String.leb a b = true.

(* ================================================================== *)
(** ** Documents and a world used in the examples *)

(** [<body><p>Just text</p></body>] *)
Definition just_text_body : PageElement :=
  Tag "body" [] [Tag "p" [] [NavigableString "Just text"]].
Definition just_text_soup : PageElement :=
  Tag "[document]" [] [just_text_body].

(** [<body><div><p>inner</p> tail</div></body>] *)
Definition nested_inner : PageElement := Tag "p" [] [NavigableString "inner"].
Definition nested_outer : PageElement :=
  Tag "div" [] [nested_inner; NavigableString " tail"].
Definition nested_body : PageElement := Tag "body" [] [nested_outer].
Definition nested_soup : PageElement := Tag "[document]" [] [nested_body].

(** [<body><p>x</p><a href=" https://twitter.com/x">a</a>
    <a href="https://twitter.com/x">b</a></body>]: the first address begins
    with a space. *)
Definition spaced_href_body : PageElement :=
  Tag "body" []
    [Tag "p" [] [NavigableString "x"];
     Tag "a" [("href", " https://twitter.com/x")] [NavigableString "a"];
     Tag "a" [("href", "https://twitter.com/x")] [NavigableString "b"]].
Definition spaced_href_soup : PageElement :=
  Tag "[document]" [] [spaced_href_body].

(** [<body><h2> </h2><p>Hello</p></body>] *)
Definition blank_heading : PageElement := Tag "h2" [] [NavigableString " "].
Definition blank_heading_body : PageElement :=
  Tag "body" [] [blank_heading; Tag "p" [] [NavigableString "Hello"]].
Definition blank_heading_soup : PageElement :=
  Tag "[document]" [] [blank_heading_body].

(** [<h2>A</h2><p>x</p>]: a page without a [body] element. *)
Definition bodyless_soup : PageElement :=
  Tag "[document]" []
    [Tag "h2" [] [NavigableString "A"]; Tag "p" [] [NavigableString "x"]].


(** A world that serves one page, whatever the address, and parses it into
    the given document. *)
Definition serving (soup : PageElement) : World :=
  {| requests_get := fun _ => Ok (mkResponse 200 "OK" "");
     BeautifulSoup := fun _ => Ok soup;
     encoding_for_model := fun _ => Ok 0;
     get_encoding := fun _ => Ok 0;
     encode := fun _ _ => [];
     decode := fun _ _ => "";
     chat_completions_create := fun _ _ _ => Ok "";
     upsert_item := fun _ => Ok tt;
     json_dumps := fun s => s;
     getenv := fun _ => None |}.

(** [<body><p>Hello</p>] and, to be put after the paragraph, a script and a
    footer that holds a paragraph and a social link. *)
Definition hello_place : place :=
  Below "[document]" []
    [] (Here "body" [] [Tag "p" [] [NavigableString "Hello"]] []) [].
Definition noise_nodes : list PageElement :=
  [Tag "script" [] [NavigableString "alert(1)"];
   Tag "footer" []
     [Tag "p" [] [NavigableString "legal"];
      Tag "a" [("href", "https://facebook.com/x")] [NavigableString "fb"]]].

Definition fresh_app : app_state :=
  {| chat_history := []; last_url := ""; session_response := ""; trace := [] |}.

(** [<body><h1>Title</h1></body>]: a heading and nothing else. *)
Definition heading_only_body : PageElement :=
  Tag "body" [] [Tag "h1" [] [NavigableString "Title"]].
Definition heading_only_soup : PageElement :=
  Tag "[document]" [] [heading_only_body].

(** [<body><h2><span>Title</span></h2></body>]: the text of the heading
    sits in a container of its own. *)
Definition span_in_heading : PageElement :=
  Tag "span" [] [NavigableString "Title"].
Definition span_heading : PageElement := Tag "h2" [] [span_in_heading].
Definition span_heading_body : PageElement := Tag "body" [] [span_heading].
Definition span_heading_soup : PageElement :=
  Tag "[document]" [] [span_heading_body].

(** [<body><p>ERROR codes explained</p></body>]: a page whose text begins
    with the word the handler looks for. *)
Definition error_text_soup : PageElement :=
  Tag "[document]" []
    [Tag "body" [] [Tag "p" [] [NavigableString "ERROR codes explained"]]].

(** The nodes of [<p>lost</p><h2>Kept</h2><p>body</p>]. *)
Definition lost_paragraph : PageElement :=
  Tag "p" [] [NavigableString "lost"].
Definition kept_heading : PageElement :=
  Tag "h2" [] [NavigableString "Kept"].
Definition kept_paragraph : PageElement :=
  Tag "p" [] [NavigableString "body"].


(** The nodes the loop acts on: headings, and containers whose text is not
    empty. *)
Definition acted_on (e : PageElement) : bool :=
  is_heading e || (is_container e && truthy (get_text_strip e)).

(** The calls the handler can reach as the program stands. *)
Definition reachable_call (ev : event) : bool :=
  match ev with
  | EvHttpGet _ | EvError _ | EvUpsert _ => true
  | EvChat _ | EvWarning _ | EvSuccess _ | EvDownload _ _ _ => false
  end.

(** [<body><table><tr><td>cell</td></tr></table><p>kept</p></body>] *)
Definition table_node : PageElement :=
  Tag "table" [] [Tag "tr" [] [Tag "td" [] [NavigableString "cell"]]].
Definition kept_text_paragraph : PageElement :=
  Tag "p" [] [NavigableString "kept"].

(* ================================================================== *)
(** ** White space and capitals, character by character *)

(** A string made of white space only (the empty string is one). *)
Fixpoint all_space (s : string) : bool :=
  match s with
  | EmptyString => true
  | String c r => is_space c && all_space r
  end.

Definition starts_with_space (s : string) : bool :=
  match s with
  | EmptyString => false
  | String c _ => is_space c
  end.

Fixpoint ends_with_space (s : string) : bool :=
  match s with
  | EmptyString => false
  | String c r =>
      match r with
      | EmptyString => is_space c
      | String _ _ => ends_with_space r
      end
  end.

(** A string with no white space at either end. *)
Definition trimmed (s : string) : Prop :=
  starts_with_space s = false /\ ends_with_space s = false.

(** [d] is [c], or the capital of [c] when [c] is one of the letters a-z. *)
Definition capital_of (c d : ascii) : Prop :=
  if ((97 <=? nat_of_ascii c) && (nat_of_ascii c <=? 122))%nat
  then nat_of_ascii d = nat_of_ascii c - 32
  else d = c.

(** [u] is [t] with every letter a-z replaced by its capital. *)
Fixpoint capitals_of (t u : string) : Prop :=
  match t, u with
  | EmptyString, EmptyString => True
  | String c t', String d u' => capital_of c d /\ capitals_of t' u'
  | _, _ => False
  end.

(** The headings of the whole input that are followed, before the next
    heading, by non-empty container text, counted without regard to the
    noise filter and to the body. *)
Definition raw_headings_with_text (soup : PageElement) : nat :=
  List.length (filter has_content (headed_sections (descendants soup))).

(** The blocks with a title line that the routine emits. *)
Definition heading_blocks_emitted (soup : PageElement) : nat :=
  match body (decompose_all noise_tags soup) with
  | Some b =>
      List.length
        (filter (fun blk => startswith blk "=== ") (walk (descendants b)))
  | None => 0
  end.

(** The reading over every input: one block per such heading. *)
Definition every_heading_gets_a_block (soup : PageElement) : Prop :=
  heading_blocks_emitted soup = raw_headings_with_text soup.

(** [<body><header><h1>Site</h1><p>tagline</p></header><p>text</p></body>]:
    the one heading stands in a denylisted element. *)
Definition header_heading_soup : PageElement :=
  Tag "[document]" []
    [Tag "body" []
       [Tag "header" []
          [Tag "h1" [] [NavigableString "Site"];
           Tag "p" [] [NavigableString "tagline"]];
        Tag "p" [] [NavigableString "text"]]].

(** [<body><h2>  Overview </h2><p> Hello </p><h3>Empty</h3><div>   </div>
    <span></span></body>]: white space around the texts, and a heading
    followed by a container of white space and an empty one. *)
Definition padded_body : PageElement :=
  Tag "body" []
    [Tag "h2" [] [NavigableString "  Overview "];
     Tag "p" [] [NavigableString " Hello "];
     Tag "h3" [] [NavigableString "Empty"];
     Tag "div" [] [NavigableString "   "];
     Tag "span" [] []].
Definition padded_soup : PageElement := Tag "[document]" [] [padded_body].

(* ================================================================== *)
(** ** Facts about the string methods *)

Section StrFacts.

Lemma truthy_true (s : string) : truthy s = true <-> s <> "".
Proof. destruct s; simpl; split; congruence. Qed.

Lemma truthy_false (s : string) : truthy s = false <-> s = "".
Proof. destruct s; simpl; split; congruence. Qed.

Lemma append_nil_r (s : string) : s ++ "" = s.
Proof. induction s; simpl; congruence. Qed.

Lemma append_assoc (a b c : string) : (a ++ b) ++ c = a ++ b ++ c.
Proof. induction a; simpl; congruence. Qed.

Lemma append_eq_nil (a b : string) : a ++ b = "" -> a = "" /\ b = "".
Proof. destruct a; simpl; intros H; [auto | discriminate]. Qed.

Lemma lstrip_starts_clean (s : string) : starts_clean (lstrip s).
Proof.
  induction s as [|c r IH]; simpl; [exact I|].
  destruct (is_space c) eqn:E; [exact IH | exact E].
Qed.

Lemma starts_clean_lstrip (s : string) : starts_clean s -> lstrip s = s.
Proof. destruct s as [|c r]; simpl; intros H; [|rewrite H]; reflexivity. Qed.

Lemma rstrip_cons_clean (c : ascii) (r : string) :
  is_space c = false -> rstrip (String c r) = String c (rstrip r).
Proof. intros H; simpl; rewrite H; destruct (rstrip r); reflexivity. Qed.

Lemma rstrip_starts_clean (s : string) :
  starts_clean s -> starts_clean (rstrip s).
Proof.
  destruct s as [|c r]; intros H; [exact I|].
  rewrite rstrip_cons_clean by exact H. exact H.
Qed.

Lemma rstrip_idem (s : string) : rstrip (rstrip s) = rstrip s.
Proof.
  induction s as [|c r IH]; [reflexivity|].
  simpl. destruct (rstrip r) as [|d r'] eqn:E.
  - destruct (is_space c) eqn:Ec; simpl; [reflexivity | now rewrite Ec].
  - change (rstrip (String c (String d r')) = String c (String d r')).
    remember (String d r') as t. simpl. rewrite IH. subst t. reflexivity.
Qed.

Lemma rstrip_app (p s : string) :
  rstrip s = s -> s <> "" -> rstrip (p ++ s) = p ++ s.
Proof.
  intros Hs Hne. induction p as [|c p IH]; simpl; [exact Hs|].
  rewrite IH. destruct (p ++ s) eqn:E; [|reflexivity].
  apply append_eq_nil in E. tauto.
Qed.

Lemma tight_strip (s : string) : tight s -> strip s = s.
Proof. intros (Hl & Hr & _). unfold strip. now rewrite Hl. Qed.

Lemma tight_truthy (s : string) : tight s -> truthy s = true.
Proof. intros (_ & _ & H). now apply truthy_true. Qed.

Lemma strip_tight (s : string) : truthy (strip s) = true -> tight (strip s).
Proof.
  intros H. apply truthy_true in H. unfold strip in *. repeat split.
  - apply starts_clean_lstrip, rstrip_starts_clean, lstrip_starts_clean.
  - apply rstrip_idem.
  - exact H.
Qed.

Lemma tight_starts_clean (s : string) : tight s -> starts_clean s.
Proof. intros (Hl & _). rewrite <- Hl. apply lstrip_starts_clean. Qed.

Lemma tight_app (a m b : string) : tight a -> tight b -> tight (a ++ m ++ b).
Proof.
  intros Ha Hb. pose proof (tight_starts_clean _ Ha) as Hc.
  destruct Ha as (_ & _ & Hane). destruct Hb as (_ & Hbr & Hbne).
  repeat split.
  - apply starts_clean_lstrip. destruct a; [congruence | exact Hc].
  - rewrite <- append_assoc. now apply rstrip_app.
  - intros E. apply append_eq_nil in E. tauto.
Qed.

Lemma tight_join (sep : string) (l : list string) :
  l <> [] -> Forall tight l -> tight (join sep l).
Proof.
  induction l as [|x r IH]; [congruence|]. intros _ H.
  inversion H as [|? ? Hx Hr]; subst.
  destruct r as [|y r]; [exact Hx|].
  change (tight (x ++ sep ++ join sep (y :: r))).
  apply tight_app; [exact Hx | apply IH; [discriminate | exact Hr]].
Qed.

Lemma stripped_tight (l : list string) : Forall tight (stripped l).
Proof.
  unfold stripped. apply Forall_forall. intros s Hs.
  apply filter_In in Hs. destruct Hs as (Hin & Ht).
  apply in_map_iff in Hin. destruct Hin as (x & <- & _).
  now apply strip_tight.
Qed.

End StrFacts.

(* ================================================================== *)
(** ** Facts about the parsed document *)

Section TreeFacts.

(** Induction on the tree that reaches the children of an element. *)
Lemma PageElement_tree_ind (P : PageElement -> Prop) :
  (forall n a contents, Forall P contents -> P (Tag n a contents)) ->
  (forall s, P (NavigableString s)) ->
  (forall s, P (Comment s)) ->
  forall e, P e.
Proof.
  intros HT HS HC.
  fix IH 1. intros [n a contents | s | s]; [|apply HS | apply HC].
  apply HT. induction contents as [|c r IHr]; constructor; [apply IH | exact IHr].
Qed.

Lemma get_text_strip_tight (e : PageElement) :
  truthy (get_text_strip e) = true -> tight (get_text_strip e).
Proof.
  unfold get_text_strip. intros H.
  destruct (stripped (all_strings e)) eqn:E; [discriminate|].
  rewrite <- E. apply tight_join; [congruence | apply stripped_tight].
Qed.

Lemma container_text_tight (e : PageElement) :
  Forall tight (container_text e).
Proof.
  unfold container_text. destruct (is_container e); [|constructor].
  destruct (truthy (get_text_strip e)) eqn:E; constructor;
    [now apply get_text_strip_tight | constructor].
Qed.

Lemma texts_until_heading_tight (l : list PageElement) :
  Forall tight (texts_until_heading l).
Proof.
  induction l as [|e r IH]; simpl; [constructor|].
  destruct (is_heading e); [constructor|].
  apply Forall_app. split; [apply container_text_tight | exact IH].
Qed.

End TreeFacts.

(* ================================================================== *)
(** ** The walk against its description by sections *)

Section WalkFacts.

Local Open Scope list_scope.

Lemma container_not_heading (e : PageElement) :
  is_heading e = true -> is_container e = false.
Proof.
  destruct e as [n a c | s | s]; [|discriminate..].
  unfold is_heading, is_container, name_in, heading_tags, container_tags.
  simpl. rewrite !orb_false_r, !orb_true_iff, !String.eqb_eq.
  intros H.
  repeat (destruct H as [H | H]; [subst n; reflexivity|]).
  subst n; reflexivity.
Qed.

Lemma visit_heading (st : walk_state) (e : PageElement) :
  is_heading e = true ->
  visit st e =
    {| content_blocks :=
         match pending st with
         | Some b => content_blocks st ++ [b]
         | None => content_blocks st
         end;
       current_heading := Some e;
       block := [] |}.
Proof. unfold visit, is_heading. now intros ->. Qed.

Lemma visit_other (st : walk_state) (e : PageElement) :
  is_heading e = false ->
  visit st e =
    {| content_blocks := content_blocks st;
       current_heading := current_heading st;
       block := block st ++ container_text e |}.
Proof.
  unfold visit, is_heading, container_text, is_container. intros ->.
  destruct (name_in container_tags e);
    [destruct (truthy (get_text_strip e))|];
    rewrite ?app_nil_r; destruct st; reflexivity.
Qed.

Lemma finish_fold (l : list PageElement) :
  forall st,
    finish (fold_left visit l st) =
      content_blocks st ++
      match current_heading st with
      | Some _ => owed st (texts_until_heading l) ++ labeled_blocks l
      | None =>
          if existsb is_heading l then labeled_blocks l
          else match block st ++ texts_until_heading l with
               | [] => []
               | _ :: _ =>
                   [strip (join nl (block st ++ texts_until_heading l))]
               end
      end.
Proof.
  induction l as [|e r IH]; intros st.
  - simpl. unfold finish, pending, owed, labeled_blocks. simpl.
    rewrite !app_nil_r.
    destruct (current_heading st), (block st); simpl;
      rewrite ?app_nil_r; reflexivity.
  - simpl fold_left. rewrite IH. clear IH.
    destruct (is_heading e) eqn:He.
    + rewrite visit_heading by exact He. simpl.
      rewrite He. simpl. unfold owed at 1. simpl.
      assert (Hl : labeled_blocks (e :: r) =
                   match texts_until_heading r with
                   | [] => []
                   | _ :: _ => [heading_block e (texts_until_heading r)]
                   end ++ labeled_blocks r).
      { unfold labeled_blocks. simpl. rewrite He. simpl.
        unfold has_content at 1. simpl.
        destruct (texts_until_heading r); reflexivity. }
      rewrite Hl. unfold pending, owed. rewrite app_nil_r.
      destruct (current_heading st), (block st); simpl;
        rewrite <- ?app_assoc; reflexivity.
    + rewrite visit_other by exact He. simpl.
      rewrite He. simpl.
      assert (Hl : labeled_blocks (e :: r) = labeled_blocks r).
      { unfold labeled_blocks. simpl. now rewrite He. }
      rewrite Hl. unfold owed. simpl. rewrite <- !app_assoc.
      reflexivity.
Qed.

Lemma no_heading_no_section (l : list PageElement) :
  existsb is_heading l = false -> headed_sections l = [].
Proof.
  induction l as [|e r IH]; simpl; [reflexivity|].
  destruct (is_heading e); simpl; [discriminate | exact IH].
Qed.

(** The walk yields the blocks of the headings that have content, in the
    order of the headings, or the one residual block of a document that
    has no heading. *)
Lemma walk_by_sections (l : list PageElement) :
  walk l = labeled_blocks l ++ unlabeled_blocks l.
Proof.
  unfold walk. rewrite finish_fold. simpl. unfold unlabeled_blocks.
  destruct (existsb is_heading l) eqn:E; [now rewrite app_nil_r|].
  unfold labeled_blocks. rewrite no_heading_no_section by exact E. simpl.
  destruct (texts_until_heading l) eqn:Et; [reflexivity|].
  rewrite <- Et. f_equal. apply tight_strip, tight_join.
  - congruence.
  - apply texts_until_heading_tight.
Qed.

Lemma labeled_blocks_truthy (l : list PageElement) :
  filter truthy (labeled_blocks l) = labeled_blocks l.
Proof.
  unfold labeled_blocks.
  induction (filter has_content (headed_sections l)) as [|s r IH];
    [reflexivity|].
  cbn [map filter]. rewrite IH. reflexivity.
Qed.

Lemma unlabeled_blocks_truthy (l : list PageElement) :
  filter truthy (unlabeled_blocks l) = unlabeled_blocks l.
Proof.
  unfold unlabeled_blocks. destruct (existsb is_heading l); [reflexivity|].
  destruct (texts_until_heading l) eqn:E; [reflexivity|].
  rewrite <- E. simpl.
  rewrite tight_truthy; [reflexivity|].
  apply tight_join; [congruence | apply texts_until_heading_tight].
Qed.

Lemma walk_truthy (l : list PageElement) :
  filter truthy (walk l) = walk l.
Proof.
  rewrite walk_by_sections, filter_app.
  now rewrite labeled_blocks_truthy, unlabeled_blocks_truthy.
Qed.

Lemma links_block_truthy (links : list string) :
  truthy (links_block links) = true.
Proof. reflexivity. Qed.

(** The returned text: the blocks of the walk, then the block of the
    links when there are any, with a blank line between blocks. *)
Lemma render_with_links (l : list PageElement) (links : list string) :
  render (with_links (walk l) links) =
    join (nl ++ nl) (with_links (walk l) links).
Proof.
  unfold render, with_links. destruct links.
  - now rewrite walk_truthy.
  - rewrite filter_app, walk_truthy. reflexivity.
Qed.

Lemma structure_body (soup b : PageElement) :
  body (decompose_all noise_tags soup) = Some b ->
  structure soup =
    Ok (join (nl ++ nl)
          (with_links (walk (descendants b))
             (collect_social_links (decompose_all noise_tags soup)))).
Proof.
  intros H. unfold structure. rewrite H. now rewrite render_with_links.
Qed.

End WalkFacts.

(* ================================================================== *)
(** ** Blocks of the headings *)

Section Headings.

Local Open Scope list_scope.

Lemma get_text_strip_single (n : string) (a : list (string * string))
      (s : string) :
  get_text_strip (Tag n a [NavigableString s]) = strip s.
Proof.
  unfold get_text_strip, all_strings, stripped. simpl.
  destruct (truthy (strip s)) eqn:E; simpl; [reflexivity|].
  symmetry. now apply truthy_false.
Qed.

Lemma blank_get_text_strip (h : PageElement) :
  (forall s, In s (all_strings h) -> strip s = ""%string) ->
  get_text_strip h = ""%string.
Proof.
  intros H. unfold get_text_strip, stripped.
  induction (all_strings h) as [|s r IH]; [reflexivity|].
  simpl. rewrite (H s) by (left; reflexivity). simpl.
  apply IH. intros s' Hs'. apply H. now right.
Qed.

Lemma no_heading_texts (l : list PageElement) :
  existsb is_heading l = false ->
  texts_until_heading l = flat_map container_text l.
Proof.
  induction l as [|e r IH]; simpl; [reflexivity|].
  destruct (is_heading e); simpl; [discriminate|].
  intros H. now rewrite IH.
Qed.

Lemma container_text_in (e : PageElement) :
  is_container e = true -> get_text_strip e <> ""%string ->
  In (get_text_strip e) (container_text e).
Proof.
  intros Hc Hne. unfold container_text. rewrite Hc.
  apply truthy_true in Hne. rewrite Hne. now left.
Qed.

(** C2.  On the document [<body><h2>Overview</h2><p>Hello</p><p>World</p>
    <a href="https://twitter.com/x">tw</a></body>] the routine returns
    the Overview block and the block of the one link, and so does
    [extract_visible_text] when the page is served. *)
Theorem overview_example :
  let expected :=
    ("=== OVERVIEW ===" ++ nl ++ "Hello World" ++ nl ++ nl
       ++ "=== SOCIAL MEDIA LINKS ===" ++ nl ++ "https://twitter.com/x")%string
  in
  structure overview_soup = Ok expected /\
  fst (App.extract_visible_text (serving overview_soup)
         "https://example.com" fresh_app) = Ok expected.
Proof. split; vm_compute; reflexivity. Qed.

(** C5.  When the body of the noise-filtered document has no heading
    element and some container below it has non-empty text, the walk
    yields a single block without a title line: the non-empty container
    texts joined by line feeds (the blocks of headings join them by
    spaces).  In particular
    [<body><p>Just text</p></body>] yields the bare line [Just text]. *)
Theorem residual_text_is_one_unlabeled_block :
  (forall soup b : PageElement,
      body (decompose_all noise_tags soup) = Some b ->
      existsb is_heading (descendants b) = false ->
      (exists e, In e (descendants b) /\ is_container e = true
                 /\ get_text_strip e <> ""%string) ->
      let texts := flat_map container_text (descendants b) in
      walk (descendants b) = [join nl texts] /\
      structure soup =
        Ok (join (nl ++ nl)
              (with_links [join nl texts]
                 (collect_social_links (decompose_all noise_tags soup)))))
  /\ structure just_text_soup = Ok "Just text"%string.
Proof.
  split; [|vm_compute; reflexivity].
  intros soup b Hb Hno (e & Hin & Hc & Hne) texts.
  assert (Hw : walk (descendants b) = [join nl texts]).
  { rewrite walk_by_sections. unfold labeled_blocks, unlabeled_blocks.
    rewrite no_heading_no_section by exact Hno. rewrite Hno.
    rewrite no_heading_texts by exact Hno. fold texts. simpl.
    destruct texts eqn:E; [|reflexivity].
    exfalso. assert (Hi : In (get_text_strip e) texts).
    { unfold texts. apply in_flat_map. exists e. split; [exact Hin|].
      now apply container_text_in. }
    rewrite E in Hi. exact Hi. }
  split; [exact Hw|]. rewrite <- Hw. now apply structure_body.
Qed.

(** C10.  A heading whose own strings are all empty or white space, and
    which is followed by non-empty container text, still gets its block:
    the title line is [===  ===], with nothing between the markers.  The
    guard of the flush looks at the collected texts only. *)
Theorem blank_heading_still_emits_block :
  forall (soup b h : PageElement) (blk : list string),
    body (decompose_all noise_tags soup) = Some b ->
    In (h, blk) (headed_sections (descendants b)) ->
    blk <> [] ->
    (forall s, In s (all_strings h) -> strip s = ""%string) ->
    let emitted := ("===  ===" ++ nl ++ strip (join " " blk))%string in
    In emitted (walk (descendants b)) /\
    exists before after : list string,
      structure soup = Ok (join (nl ++ nl) (before ++ emitted :: after)).
Proof.
  intros soup b h blk Hb Hin Hne Hblank emitted.
  assert (Hw : In emitted (walk (descendants b))).
  { rewrite walk_by_sections. apply in_or_app. left.
    unfold labeled_blocks. apply in_map_iff. exists (h, blk). split.
    - simpl. rewrite blank_get_text_strip by exact Hblank. reflexivity.
    - apply filter_In. split; [exact Hin|].
      unfold has_content. simpl. destruct blk; congruence. }
  split; [exact Hw|].
  rewrite (structure_body _ _ Hb).
  destruct (in_split _ _ Hw) as (l1 & l2 & E). rewrite E.
  unfold with_links.
  destruct (collect_social_links (decompose_all noise_tags soup)).
  - now exists l1, l2.
  - exists l1. eexists. rewrite <- app_assoc. simpl. reflexivity.
Qed.

End Headings.

(* ================================================================== *)
(** ** The noise filter *)

Section NoiseFilter.

Local Open Scope list_scope.

Variable names : list string.

Let prune (c : PageElement) : list PageElement :=
  if name_in names c then [] else [decompose_all names c].

Lemma name_in_decompose (l : list string) (e : PageElement) :
  name_in l (decompose_all names e) = name_in l e.
Proof. destruct e; reflexivity. Qed.

Lemma text_of_decompose (e : PageElement) :
  text_of (decompose_all names e) = text_of e.
Proof. destruct e; reflexivity. Qed.

Lemma href_of_decompose (e : PageElement) :
  href_of (decompose_all names e) = href_of e.
Proof. destruct e; reflexivity. Qed.

(** The nodes of the filtered tree are the filtered images of the nodes
    that have no listed element above them or at them. *)
Lemma descendants_decompose (e : PageElement) :
  descendants (decompose_all names e)
  = map (decompose_all names) (kept names e).
Proof.
  induction e as [n a contents IH | s | s] using PageElement_tree_ind;
    [|reflexivity..].
  simpl. induction contents as [|c r IHr]; [reflexivity|].
  inversion IH as [|? ? Hc Hr]; subst. simpl.
  destruct (name_in names c); simpl; [now apply IHr|].
  rewrite map_app, <- Hc. f_equal. f_equal. now apply IHr.
Qed.

Lemma kept_not_listed (e x : PageElement) :
  In x (kept names e) -> name_in names x = false.
Proof.
  induction e as [n a contents IH | s | s] using PageElement_tree_ind;
    [|contradiction..].
  simpl. rewrite in_flat_map. intros (c & Hc & Hx).
  rewrite Forall_forall in IH.
  destruct (name_in names c) eqn:E; [contradiction|].
  destruct Hx as [-> | Hx]; [exact E | now apply (IH c)].
Qed.

Lemma decompose_removes_listed (e x : PageElement) :
  In x (descendants (decompose_all names e)) -> name_in names x = false.
Proof.
  rewrite descendants_decompose, in_map_iff. intros (y & <- & Hy).
  rewrite name_in_decompose. now apply (kept_not_listed e).
Qed.

Lemma kept_subtree (e x : PageElement) :
  In x (kept names e) -> In x (descendants e).
Proof.
  induction e as [n a contents IH | s | s] using PageElement_tree_ind;
    [|contradiction..].
  simpl. rewrite !in_flat_map. intros (c & Hc & Hx).
  rewrite Forall_forall in IH. exists c. split; [exact Hc|].
  destruct (name_in names c); [contradiction|].
  destruct Hx as [-> | Hx]; [now left | right; now apply IH].
Qed.

Lemma flat_map_text_decompose (l : list PageElement) :
  flat_map text_of (map (decompose_all names) l) = flat_map text_of l.
Proof.
  induction l as [|x r IH]; simpl; [reflexivity|].
  now rewrite text_of_decompose, IH.
Qed.

Lemma flat_map_href_decompose (l : list PageElement) :
  flat_map href_of (map (decompose_all names) l) = flat_map href_of l.
Proof.
  induction l as [|x r IH]; simpl; [reflexivity|].
  now rewrite href_of_decompose, IH.
Qed.

Lemma prune_listed (nodes : list PageElement) :
  Forall (fun x => name_in names x = true) nodes ->
  flat_map prune nodes = [].
Proof.
  induction 1 as [|x r Hx _ IH]; [reflexivity|].
  simpl. unfold prune at 1. now rewrite Hx.
Qed.

Lemma name_in_plug (p : place) (nodes nodes' : list PageElement) :
  name_in names (plug p nodes) = name_in names (plug p nodes').
Proof. destruct p; reflexivity. Qed.

(** Listed elements put anywhere in a document, with anything inside
    them, leave the filtered document as it is without them. *)
Lemma decompose_plug (p : place) (nodes : list PageElement) :
  Forall (fun x => name_in names x = true) nodes ->
  decompose_all names (plug p nodes) = decompose_all names (plug p []).
Proof.
  intros H. induction p as [n a before after | n a before inner IH after];
    simpl; f_equal.
  - fold prune. rewrite !flat_map_app, (prune_listed nodes H).
    reflexivity.
  - fold prune. rewrite !flat_map_app. f_equal. simpl. f_equal.
    unfold prune. rewrite (name_in_plug inner nodes []).
    destruct (name_in names (plug inner [])); [reflexivity|].
    now rewrite IH.
Qed.

End NoiseFilter.

(** C3.  Every element with a denylisted name is cut out with all that is
    below it before the links are collected and before the walk: no element
    of the filtered document carries a denylisted name; the strings and the
    anchor addresses the routine reads are those of nodes with no denylisted
    element at or above them; the result is a function of the filtered
    document alone; and denylisted elements put anywhere in a document,
    whatever text and anchors they hold, leave the result as it is without
    them. *)
Theorem noise_subtrees_contribute_nothing :
  forall soup : PageElement,
    let filtered := decompose_all noise_tags soup in
    (forall e, In e (descendants filtered) -> name_in noise_tags e = false) /\
    (forall x, In x (kept noise_tags soup) ->
               In x (descendants soup) /\ name_in noise_tags x = false) /\
    all_strings filtered = flat_map text_of (kept noise_tags soup) /\
    anchor_hrefs filtered = flat_map href_of (kept noise_tags soup) /\
    structure soup =
      match body filtered with
      | None =>
          Raise (mkExc AttributeError
                   "'NoneType' object has no attribute 'descendants'")
      | Some b =>
          Ok (render (with_links (walk (descendants b))
                        (collect_social_links filtered)))
      end /\
    (forall soup', decompose_all noise_tags soup' = filtered ->
                   structure soup' = structure soup) /\
    (forall (p : place) (noise : list PageElement),
        soup = plug p noise ->
        Forall (fun x => name_in noise_tags x = true) noise ->
        structure soup = structure (plug p [])).
Proof.
  intros soup filtered. repeat split.
  - apply decompose_removes_listed.
  - now apply kept_subtree with (names := noise_tags).
  - now apply kept_not_listed with (e := soup).
  - unfold all_strings, filtered.
    now rewrite descendants_decompose, flat_map_text_decompose.
  - unfold anchor_hrefs, filtered.
    now rewrite descendants_decompose, flat_map_href_decompose.
  - intros soup' H. unfold structure. now rewrite H.
  - intros p noise -> H. unfold structure.
    now rewrite (decompose_plug noise_tags p noise H).
Qed.

(* ================================================================== *)
(** ** The social links *)

Section SocialLinks.

Local Open Scope list_scope.

Lemma set_mem_In (x : string) (s : list string) :
  set_mem x s = true <-> In x s.
Proof.
  unfold set_mem. rewrite existsb_exists. split.
  - intros (y & Hy & E). apply String.eqb_eq in E. now subst.
  - intros H. exists x. split; [exact H | apply String.eqb_refl].
Qed.

Lemma set_add_In (x y : string) (s : list string) :
  In x (set_add y s) <-> x = y \/ In x s.
Proof.
  unfold set_add. destruct (set_mem y s) eqn:E.
  - apply set_mem_In in E. split; [now right|].
    intros [-> | H]; assumption.
  - rewrite in_app_iff. simpl. intuition.
Qed.

Lemma set_add_NoDup (y : string) (s : list string) :
  NoDup s -> NoDup (set_add y s).
Proof.
  intros H. unfold set_add. destruct (set_mem y s) eqn:E; [exact H|].
  apply NoDup_app; [exact H | repeat constructor; simpl; tauto |].
  intros a Ha [<- | []].
  apply set_mem_In in Ha. congruence.
Qed.

Lemma collect_fold (hrefs : list string) :
  forall acc : list string,
    NoDup acc ->
    NoDup (fold_left collect_step hrefs acc) /\
    forall x, In x (fold_left collect_step hrefs acc) <->
              In x acc \/
              exists href, In href hrefs /\ is_social href = true
                           /\ x = strip href.
Proof.
  induction hrefs as [|h r IH]; intros acc Hnd; simpl.
  - split; [exact Hnd|]. intros x. split; [now left|].
    intros [H | (href & [] & _)]. exact H.
  - assert (Hnd' : NoDup (collect_step acc h)).
    { unfold collect_step. destruct (is_social h);
        [now apply set_add_NoDup | exact Hnd]. }
    destruct (IH _ Hnd') as (Hn & Hi). split; [exact Hn|].
    intros x. rewrite Hi. unfold collect_step.
    destruct (is_social h) eqn:E.
    + rewrite set_add_In. split.
      * intros [[-> | H] | (href & Hin & Hs & ->)].
        -- right. exists h. auto.
        -- now left.
        -- right. exists href. auto.
      * intros [H | (href & [<- | Hin] & Hs & ->)].
        -- left. now right.
        -- left. now left.
        -- right. exists href. auto.
    + split.
      * intros [H | (href & Hin & Hs & ->)]; [now left|].
        right. exists href. auto.
      * intros [H | (href & [<- | Hin] & Hs & ->)]; [now left | congruence |].
        right. exists href. auto.
Qed.

Lemma str_le_trans (a : string) :
  forall b c, str_le a b -> str_le b c -> str_le a c.
Proof.
  unfold str_le, String.leb.
  induction a as [|x a IH]; intros [|y b] [|z c]; simpl;
    try congruence.
  unfold Ascii.compare.
  destruct (BinNat.N.compare_spec (N_of_ascii x) (N_of_ascii y)) as [E|L|G];
    destruct (BinNat.N.compare_spec (N_of_ascii y) (N_of_ascii z))
      as [E'|L'|G']; try congruence.
  - rewrite E, E', BinNat.N.compare_refl. apply IH.
  - intros _ _. rewrite E.
    now rewrite (proj2 (BinNat.N.compare_lt_iff _ _) L').
  - intros _ _. rewrite <- E'.
    now rewrite (proj2 (BinNat.N.compare_lt_iff _ _) L).
  - intros _ _.
    now rewrite (proj2 (BinNat.N.compare_lt_iff _ _)
                   (BinNat.N.lt_trans _ _ _ L L')).
Qed.

Lemma insert_sorted_perm (x : string) (l : list string) :
  Permutation (x :: l) (insert_sorted x l).
Proof.
  induction l as [|y r IH]; simpl; [apply Permutation_refl|].
  destruct (String.leb x y); [apply Permutation_refl|].
  eapply Permutation_trans; [apply perm_swap|].
  now apply perm_skip.
Qed.

Lemma sorted_perm (l : list string) : Permutation l (sorted l).
Proof.
  induction l as [|x r IH]; simpl; [constructor|].
  eapply Permutation_trans; [apply perm_skip, IH|].
  apply insert_sorted_perm.
Qed.

Lemma insert_sorted_ordered (x : string) (l : list string) :
  StronglySorted str_le l -> StronglySorted str_le (insert_sorted x l).
Proof.
  induction 1 as [|y r Hs IH Hall]; simpl.
  - repeat constructor.
  - destruct (String.leb x y) eqn:E.
    + constructor; [now constructor|].
      constructor; [exact E|].
      eapply Forall_impl; [|exact Hall].
      intros z Hz. now apply (str_le_trans x y z).
    + constructor; [exact IH|].
      assert (Hyx : str_le y x).
      { destruct (String.leb_total x y) as [H|H]; [congruence | exact H]. }
      apply Forall_forall. intros z Hz.
      apply (Permutation_in _ (Permutation_sym (insert_sorted_perm x r)))
        in Hz.
      destruct Hz as [<- | Hz]; [exact Hyx|].
      rewrite Forall_forall in Hall. now apply Hall.
Qed.

Lemma sorted_ordered (l : list string) : StronglySorted str_le (sorted l).
Proof.
  induction l as [|x r IH]; simpl;
    [constructor | now apply insert_sorted_ordered].
Qed.

(** C4 as stated, with the values of the attributes as the members of the
    set, fails on the document with the address [" https://twitter.com/x"]:
    the set holds the trimmed address, not the value of the attribute, and
    the two anchors, whose values differ, give one line. *)
Lemma spaced_href_is_trimmed :
  ~ links_are_href_values spaced_href_soup.
Proof.
  intros H. destruct (H " https://twitter.com/x"%string) as (_ & Hback).
  assert (Hin : In " https://twitter.com/x"%string
                  (collect_social_links
                     (decompose_all noise_tags spaced_href_soup))).
  { apply Hback. split; [vm_compute; auto | reflexivity]. }
  vm_compute in Hin. destruct Hin as [E | []]. discriminate E.
Qed.

Example spaced_href_output :
  structure spaced_href_soup =
    Ok ("x" ++ nl ++ nl ++ "=== SOCIAL MEDIA LINKS ===" ++ nl
          ++ "https://twitter.com/x")%string.
Proof. vm_compute. reflexivity. Qed.

(** C4, amended.  The address of every anchor of the filtered document
    that contains one of the domain markers is added, with the white
    space at its two ends removed, to a set: a trimmed address is a
    member exactly when some matching anchor carries it, and is a member
    once.  Nothing else is normalised.  When the set is not empty and the
    document has a body, the returned text ends with a block made of the
    line [=== SOCIAL MEDIA LINKS ===] and the members in ascending order
    of [str], one per line, after all blocks of the walk; when the set is
    empty no such block is added. *)
Theorem social_links_trimmed_deduplicated_sorted :
  forall soup : PageElement,
    let filtered := decompose_all noise_tags soup in
    let links := collect_social_links filtered in
    (forall x, In x links <->
               exists href, In href (anchor_hrefs filtered)
                            /\ is_social href = true /\ x = strip href) /\
    NoDup links /\
    Permutation links (sorted links) /\
    StronglySorted str_le (sorted links) /\
    forall b, body filtered = Some b ->
      structure soup =
        Ok (join (nl ++ nl)
              (walk (descendants b) ++
               match links with
               | [] => []
               | _ :: _ =>
                   [("=== SOCIAL MEDIA LINKS ===" ++ nl
                       ++ join nl (sorted links))%string]
               end)).
Proof.
  intros soup filtered links.
  destruct (collect_fold (anchor_hrefs filtered) [] (NoDup_nil _))
    as (Hnd & Hin).
  split; [|split; [|split; [|split]]].
  - intros x. unfold links, collect_social_links. rewrite Hin.
    simpl. tauto.
  - exact Hnd.
  - apply sorted_perm.
  - apply sorted_ordered.
  - intros b Hb. rewrite (structure_body _ _ Hb). fold filtered links.
    unfold with_links, links_block.
    destruct links; [now rewrite app_nil_r | reflexivity].
Qed.

End SocialLinks.

(* ================================================================== *)
(** ** Containers inside containers *)

Section Nesting.

Local Open Scope list_scope.

(** A node below [e] is followed at once, in the order of the walk, by the
    nodes below it. *)
Lemma descendants_split (e x : PageElement) :
  In x (descendants e) ->
  exists l1 l2, descendants e = l1 ++ x :: descendants x ++ l2.
Proof.
  induction e as [n a contents IH | s | s] using PageElement_tree_ind;
    [|contradiction..].
  simpl. rewrite in_flat_map. intros (c & Hc & Hx).
  rewrite Forall_forall in IH. specialize (IH c Hc).
  destruct (in_split _ _ Hc) as (c1 & c2 & ->).
  rewrite flat_map_app. simpl.
  set (F := flat_map (fun c0 => c0 :: descendants c0)).
  destruct Hx as [<- | Hx].
  - exists (F c1), (F c2). reflexivity.
  - destruct (IH Hx) as (m1 & m2 & E).
    exists (F c1 ++ c :: m1), (m2 ++ F c2).
    rewrite E. rewrite <- !app_assoc. simpl. rewrite <- !app_assoc.
    reflexivity.
Qed.

Lemma join_empty_app (l1 l2 : list string) :
  join "" (l1 ++ l2) = (join "" l1 ++ join "" l2)%string.
Proof.
  unfold join. induction l1 as [|x r IH]; [reflexivity|].
  destruct r as [|y r].
  - simpl. destruct l2; [now rewrite append_nil_r | reflexivity].
  - change (String.concat "" ((x :: y :: r) ++ l2))
      with (x ++ "" ++ String.concat "" ((y :: r) ++ l2))%string.
    rewrite IH. simpl. now rewrite append_assoc.
Qed.

Lemma stripped_app (l1 l2 : list string) :
  stripped (l1 ++ l2) = stripped l1 ++ stripped l2.
Proof. unfold stripped. now rewrite map_app, filter_app. Qed.

(** The text of an element carries, as one piece, the text of every
    element below it. *)
Lemma get_text_strip_nested (outer inner : PageElement) :
  In inner (descendants outer) ->
  exists pre post : string,
    get_text_strip outer = (pre ++ get_text_strip inner ++ post)%string.
Proof.
  intros H. destruct (descendants_split _ _ H) as (l1 & l2 & E).
  unfold get_text_strip, all_strings at 1. rewrite E.
  rewrite flat_map_app. simpl. rewrite flat_map_app.
  fold (all_strings inner).
  rewrite stripped_app, join_empty_app.
  rewrite stripped_app, join_empty_app.
  rewrite stripped_app, join_empty_app.
  exists (join "" (stripped (flat_map text_of l1))
            ++ join "" (stripped (text_of inner)))%string,
    (join "" (stripped (flat_map text_of l2))).
  now rewrite !append_assoc.
Qed.

Lemma visit_container (st : walk_state) (e : PageElement) :
  is_container e = true -> get_text_strip e <> ""%string ->
  visit st e =
    {| content_blocks := content_blocks st;
       current_heading := current_heading st;
       block := block st ++ [get_text_strip e] |}.
Proof.
  intros Hc Hne. rewrite visit_other.
  - unfold container_text. rewrite Hc.
    apply truthy_true in Hne. now rewrite Hne.
  - destruct (is_heading e) eqn:E; [|reflexivity].
    apply container_not_heading in E. congruence.
Qed.

Lemma fold_visit_no_heading (l : list PageElement) :
  forall st,
    existsb is_heading l = false ->
    fold_left visit l st =
      {| content_blocks := content_blocks st;
         current_heading := current_heading st;
         block := block st ++ flat_map container_text l |}.
Proof.
  induction l as [|e r IH]; intros st H; simpl in *.
  - rewrite app_nil_r. now destruct st.
  - apply orb_false_iff in H. destruct H as (He & Hr).
    rewrite IH by exact Hr. rewrite visit_other by exact He. simpl.
    now rewrite <- app_assoc.
Qed.

(** C6.  Let a container (p, li, div or span) with non-empty text lie
    below another container, both below the body.  The walk visits the
    outer one, then, later, the inner one; the visit of the outer one
    appends its text, which carries the text of the inner one as a piece,
    and the visit of the inner one appends the text of the inner one
    again.  When no heading lies between the two visits, both entries are
    in the same block, the second after the first. *)
Theorem nested_container_text_is_appended_twice :
  forall b outer inner : PageElement,
    In outer (descendants b) ->
    In inner (descendants outer) ->
    is_container outer = true ->
    is_container inner = true ->
    get_text_strip inner <> ""%string ->
    exists l1 l2 l3 : list PageElement,
      descendants b = l1 ++ outer :: l2 ++ inner :: l3 /\
      (exists pre post : string,
          get_text_strip outer
          = (pre ++ get_text_strip inner ++ post)%string) /\
      (let st := fold_left visit l1 walk_init in
       block (visit st outer) = block st ++ [get_text_strip outer]) /\
      (let st := fold_left visit (l1 ++ outer :: l2) walk_init in
       block (visit st inner) = block st ++ [get_text_strip inner]) /\
      (existsb is_heading l2 = false ->
       let st := fold_left visit l1 walk_init in
       block (fold_left visit (l1 ++ outer :: l2 ++ [inner]) walk_init)
       = block st ++ [get_text_strip outer]
           ++ flat_map container_text l2 ++ [get_text_strip inner]).
Proof.
  intros b outer inner Ho Hi Hco Hci Hne.
  destruct (descendants_split _ _ Ho) as (l1 & r1 & E1).
  destruct (descendants_split _ _ Hi) as (l2 & r2 & E2).
  destruct (get_text_strip_nested _ _ Hi) as (pre & post & Et).
  assert (Hno : get_text_strip outer <> ""%string).
  { rewrite Et. intros E. apply append_eq_nil in E. destruct E as (_ & E).
    apply append_eq_nil in E. tauto. }
  exists l1, l2, (descendants inner ++ r2 ++ r1).
  split; [|split; [|split; [|split]]].
  - rewrite E1, E2. rewrite <- !app_assoc. simpl.
    now rewrite <- !app_assoc.
  - now exists pre, post.
  - simpl. now rewrite visit_container.
  - simpl. now rewrite visit_container.
  - intros Hh. simpl. rewrite fold_left_app. simpl.
    rewrite fold_left_app. simpl.
    rewrite fold_visit_no_heading by exact Hh.
    rewrite (visit_container _ outer Hco Hno). simpl.
    rewrite visit_container by assumption. simpl.
    now rewrite <- !app_assoc.
Qed.

End Nesting.

(* ================================================================== *)
(** ** Failures and the handler of the button *)

Section Failures.

Local Open Scope list_scope.

Variable w : World.

Lemma scrape_trace (url : string) (st : app_state) :
  trace (snd (App.scrape w url st)) = trace st ++ [EvHttpGet url].
Proof.
  unfold App.scrape, mbind, emit, lift. simpl.
  destruct (requests_get w url) as [r|e]; [|reflexivity].
  destruct (App.raise_for_status url r); [|reflexivity].
  destruct (BeautifulSoup w (text r)); reflexivity.
Qed.

Lemma extract_trace (url : string) (st : app_state) :
  trace (snd (App.extract_visible_text w url st))
  = trace st ++ [EvHttpGet url].
Proof.
  unfold App.extract_visible_text, try_except.
  pose proof (scrape_trace url st) as H.
  destruct (App.scrape w url st) as ([doc|e] & st'); [exact H|].
  unfold App.scrape_handler. destruct (exc_cls e); exact H.
Qed.

Lemma scrape_state (url : string) (st : app_state) :
  snd (App.scrape w url st)
  = {| chat_history := chat_history st; last_url := last_url st;
       session_response := session_response st;
       trace := trace st ++ [EvHttpGet url] |}.
Proof.
  unfold App.scrape, mbind, emit, lift. simpl.
  destruct (requests_get w url) as [r|e]; [|reflexivity].
  destruct (App.raise_for_status url r); [|reflexivity].
  destruct (BeautifulSoup w (text r)); reflexivity.
Qed.

Lemma scrape_result (url : string) (st st' : app_state) :
  fst (App.scrape w url st) = fst (App.scrape w url st').
Proof.
  unfold App.scrape, mbind, emit, lift. simpl.
  destruct (requests_get w url) as [r|e]; [|reflexivity].
  destruct (App.raise_for_status url r); [|reflexivity].
  destruct (BeautifulSoup w (text r)); reflexivity.
Qed.

Lemma extract_on_failure (url : string) (e : exception) (st : app_state) :
  fst (App.scrape w url st) = Raise e ->
  App.extract_visible_text w url st
  = (Ok ((match exc_cls e with
          | RequestException => "ERROR: Failed to scrape the page: "
          | _ => "ERROR: An unexpected error occurred during scraping: "
          end) ++ exc_msg e)%string,
     {| chat_history := chat_history st; last_url := last_url st;
        session_response := session_response st;
        trace := trace st ++ [EvHttpGet url] |}).
Proof.
  intros H. unfold App.extract_visible_text, try_except.
  pose proof (scrape_state url st) as Hs.
  destruct (App.scrape w url st) as (r & st'). simpl in H, Hs. subst r st'.
  unfold App.scrape_handler, ret. destruct (exc_cls e); reflexivity.
Qed.

Lemma error_text_prefix (e : exception) :
  startswith
    ((match exc_cls e with
      | RequestException => "ERROR: Failed to scrape the page: "
      | _ => "ERROR: An unexpected error occurred during scraping: "
      end) ++ exc_msg e)%string "ERROR:" = true /\
  startswith
    ((match exc_cls e with
      | RequestException => "ERROR: Failed to scrape the page: "
      | _ => "ERROR: An unexpected error occurred during scraping: "
      end) ++ exc_msg e)%string "ERROR" = true.
Proof. destruct (exc_cls e); split; reflexivity. Qed.


(** C8, on the code.  The first statement of [clean_and_structure_text]
    reads the global [GPT_DEPLOYMENT_NAME], which no statement of the
    module binds: for every text the call raises [NameError], before the
    [try] around the request to the language model is entered, and the
    exception reaches the caller. *)
Theorem clean_and_structure_text_raises_name_error :
  forall (raw_text : string) (st : app_state),
    App.clean_and_structure_text w raw_text st
    = (Raise (mkExc NameError "name 'GPT_DEPLOYMENT_NAME' is not defined"),
       st).
Proof. intros raw_text st. reflexivity. Qed.

(** C9.  An input that does not start with [http] is answered by the
    validation message: the handler shows it, records it and stores the
    exchange, and makes no request.  Every call of [extract_visible_text]
    begins with a request, so the routine is not called either. *)
Theorem url_without_http_prefix_is_rejected :
  forall (user_input : string) (st : app_state),
    startswith user_input "http" = false ->
    let st' := snd (App.on_extract w user_input st) in
    session_response st' = App.validation_message /\
    chat_history st'
    = chat_history st
        ++ [("user", user_input); ("bot", App.validation_message)]%string /\
    trace st'
    = trace st ++ [EvError App.validation_message;
                   EvUpsert (chat_history st')] /\
    (forall url, In (EvHttpGet url) (trace st') ->
                 In (EvHttpGet url) (trace st)) /\
    (forall url s,
        trace (snd (App.extract_visible_text w url s))
        = trace s ++ [EvHttpGet url]).
Proof.
  intros user_input st H st'.
  assert (E : st' =
              {| chat_history :=
                   chat_history st ++
                     [("user", user_input);
                      ("bot", App.validation_message)]%string;
                 last_url := user_input;
                 session_response := App.validation_message;
                 trace := trace st ++
                   [EvError App.validation_message;
                    EvUpsert (chat_history st ++
                                [("user", user_input);
                                 ("bot", App.validation_message)]%string)]
              |}).
  { unfold st', App.on_extract, mbind, App.set_last_url, App.chat_append.
    rewrite H.
    cbn [negb chat_history last_url session_response trace].
    cbv beta iota.
    unfold emit, ret, App.set_response, App.save_to_cosmos, mbind, emit,
      lift. simpl.
    rewrite <- !app_assoc. simpl.
    reflexivity. }
  rewrite E. simpl. repeat split.
  - intros url Hin. apply in_app_or in Hin.
    destruct Hin as [Hin | [Hin | [Hin | []]]];
      [exact Hin | discriminate | discriminate].
  - intros url s. apply extract_trace.
Qed.

End Failures.

(* ================================================================== *)
(** ** The statements at concrete documents *)

Local Open Scope list_scope.

(** A script and a footer put after the paragraph change nothing. *)
Lemma noise_after_hello :
  Forall (fun x => name_in noise_tags x = true) noise_nodes /\
  structure (plug hello_place noise_nodes) = structure (plug hello_place []) /\
  structure (plug hello_place []) = Ok "Hello"%string.
Proof.
  assert (H : Forall (fun x => name_in noise_tags x = true) noise_nodes)
    by (repeat constructor).
  split; [exact H|]. split; [|reflexivity].
  exact (proj2 (proj2 (proj2 (proj2 (proj2 (proj2
           (noise_subtrees_contribute_nothing
              (plug hello_place noise_nodes)))))))
           hello_place noise_nodes eq_refl H).
Defined.

(** The two anchors of the document with the spaced address give one line. *)
Lemma spaced_href_one_line :
  body (decompose_all noise_tags spaced_href_soup) = Some spaced_href_body /\
  structure spaced_href_soup
  = Ok ("x" ++ nl ++ nl ++ "=== SOCIAL MEDIA LINKS ===" ++ nl
          ++ "https://twitter.com/x")%string.
Proof.
  split; [reflexivity|].
  exact (proj2 (proj2 (proj2 (proj2
           (social_links_trimmed_deduplicated_sorted spaced_href_soup))))
           spaced_href_body eq_refl).
Defined.

(** The one paragraph of [just_text_soup] is the one block. *)
Lemma just_text_one_block :
  existsb is_heading (descendants just_text_body) = false /\
  walk (descendants just_text_body) = ["Just text"%string].
Proof.
  split; [reflexivity|].
  refine (proj1 (proj1 residual_text_is_one_unlabeled_block
                   just_text_soup just_text_body eq_refl eq_refl _)).
  exists (Tag "p" [] [NavigableString "Just text"]).
  split; [left; reflexivity|]. split; [reflexivity | discriminate].
Defined.

(** In [<div><p>inner</p> tail</div>] the text [inner] is appended with the
    text of the [div] and again on its own. *)
Lemma nested_inner_twice :
  get_text_strip nested_outer = "innertail"%string /\
  get_text_strip nested_inner = "inner"%string /\
  walk (descendants nested_body)
  = [("innertail" ++ nl ++ "inner")%string] /\
  exists l1 l2 l3 : list PageElement,
    descendants nested_body = l1 ++ nested_outer :: l2 ++ nested_inner :: l3 /\
    (existsb is_heading l2 = false ->
     block (fold_left visit (l1 ++ nested_outer :: l2 ++ [nested_inner])
              walk_init)
     = block (fold_left visit l1 walk_init)
         ++ [get_text_strip nested_outer]
         ++ flat_map container_text l2 ++ [get_text_strip nested_inner]).
Proof.
  split; [reflexivity|]. split; [reflexivity|]. split; [reflexivity|].
  assert (Hne : get_text_strip nested_inner <> ""%string) by discriminate.
  destruct (nested_container_text_is_appended_twice
              nested_body nested_outer nested_inner
              (or_introl eq_refl) (or_introl eq_refl) eq_refl eq_refl Hne)
    as (l1 & l2 & l3 & E & _ & _ & _ & H).
  exists l1, l2, l3. split; [exact E | exact H].
Defined.


(** A page without a body gives the other tagged error string. *)
Example bodyless_gives_error_string :
  fst (App.extract_visible_text (serving bodyless_soup) "https://example.com"
         fresh_app)
  = Ok ("ERROR: An unexpected error occurred during scraping: "
          ++ "'NoneType' object has no attribute 'descendants'")%string.
Proof. reflexivity. Qed.

(** After a successful scrape the handler calls the cleaning step, and the
    [NameError] raised there leaves the handler. *)
Example handler_raises_after_scrape :
  fst (App.on_extract (serving just_text_soup) "https://example.com"
         fresh_app)
  = Raise (mkExc NameError "name 'GPT_DEPLOYMENT_NAME' is not defined").
Proof. reflexivity. Qed.

(** [ftp://example.com] is rejected without a request. *)
Lemma ftp_is_rejected :
  startswith "ftp://example.com" "http" = false /\
  trace (snd (App.on_extract (serving overview_soup) "ftp://example.com"
                fresh_app))
  = [EvError App.validation_message;
     EvUpsert [("user", "ftp://example.com");
               ("bot", App.validation_message)]%string].
Proof.
  split; [reflexivity|].
  exact (proj1 (proj2 (proj2
           (url_without_http_prefix_is_rejected (serving overview_soup)
              "ftp://example.com" fresh_app eq_refl)))).
Defined.

(** The heading [<h2> </h2>] before [<p>Hello</p>] gives a block with an
    empty title. *)
Lemma blank_heading_block :
  In (blank_heading, ["Hello"%string])
     (headed_sections (descendants blank_heading_body)) /\
  In ("===  ===" ++ nl ++ "Hello")%string
     (walk (descendants blank_heading_body)) /\
  structure blank_heading_soup = Ok ("===  ===" ++ nl ++ "Hello")%string.
Proof.
  assert (Hin : In (blank_heading, ["Hello"%string])
                  (headed_sections (descendants blank_heading_body)))
    by (left; reflexivity).
  assert (Hne : ["Hello"%string] <> []) by discriminate.
  assert (Hblank : forall s, In s (all_strings blank_heading) ->
                             strip s = ""%string).
  { intros s [<- | []]. reflexivity. }
  split; [exact Hin|]. split; [|reflexivity].
  exact (proj1 (blank_heading_still_emits_block blank_heading_soup
                  blank_heading_body blank_heading ["Hello"%string]
                  eq_refl Hin Hne Hblank)).
Defined.

(* ================================================================== *)
(** ** Further properties of the extraction routine *)

Section FilterAgain.

Variable names : list string.

Lemma decompose_all_idem (e : PageElement) :
  decompose_all names (decompose_all names e) = decompose_all names e.
Proof.
  induction e as [n a contents IH | s | s] using PageElement_tree_ind;
    [|reflexivity..].
  simpl. f_equal.
  induction contents as [|c r IHr]; [reflexivity|].
  inversion IH as [|? ? Hc Hr]; subst. simpl.
  destruct (name_in names c) eqn:E; simpl; [now apply IHr|].
  rewrite name_in_decompose, E, Hc. simpl. f_equal. now apply IHr.
Qed.

End FilterAgain.

(** X1.  Filtering a filtered document changes nothing, so the routine
    gives the same result on a document and on its filtered form. *)
Theorem structure_of_filtered_document :
  forall soup : PageElement,
    decompose_all noise_tags (decompose_all noise_tags soup)
    = decompose_all noise_tags soup /\
    structure (decompose_all noise_tags soup) = structure soup.
Proof.
  intros soup. split; [apply decompose_all_idem|].
  unfold structure. now rewrite decompose_all_idem.
Qed.

(** X2.  The texts met before the first heading are not flushed when that
    heading is reached: the walk of a sequence that has a heading is the
    walk of the sequence from its first heading on. *)
Theorem text_before_first_heading_is_dropped :
  forall (before : list PageElement) (h : PageElement)
         (rest : list PageElement),
    existsb is_heading before = false ->
    is_heading h = true ->
    walk (before ++ h :: rest) = walk (h :: rest).
Proof.
  intros before h rest Hb Hh. unfold walk.
  rewrite fold_left_app, (fold_visit_no_heading before walk_init Hb).
  simpl. rewrite !visit_heading by exact Hh. reflexivity.
Qed.

Lemma text_before_first_heading_is_dropped_example :
  walk ([lost_paragraph] ++ kept_heading :: [kept_paragraph])
  = [("=== KEPT ===" ++ nl ++ "body")%string].
Proof.
  rewrite (text_before_first_heading_is_dropped
             [lost_paragraph] kept_heading [kept_paragraph]
             eq_refl eq_refl).
  reflexivity.
Defined.

Lemma no_text_no_blocks (l : list PageElement) :
  flat_map container_text l = [] ->
  texts_until_heading l = [] /\ filter has_content (headed_sections l) = [].
Proof.
  induction l as [|e r IH]; simpl; [now split|].
  intros H. apply app_eq_nil in H. destruct H as (He & Hr).
  destruct (IH Hr) as (Ht & Hs).
  destruct (is_heading e); simpl.
  - unfold has_content at 1. simpl. rewrite Ht. now split.
  - rewrite He, Ht. now split.
Qed.

(** X3.  When no container below the body has text and no anchor carries
    a social address, the routine returns the empty string, whatever
    headings the document has. *)
Theorem nothing_collected_gives_empty_text :
  forall soup b : PageElement,
    body (decompose_all noise_tags soup) = Some b ->
    flat_map container_text (descendants b) = [] ->
    collect_social_links (decompose_all noise_tags soup) = [] ->
    structure soup = Ok ""%string.
Proof.
  intros soup b Hb Ht Hl. rewrite (structure_body _ _ Hb), Hl.
  rewrite walk_by_sections. unfold labeled_blocks, unlabeled_blocks.
  destruct (no_text_no_blocks _ Ht) as (H1 & H2). rewrite H1, H2.
  simpl. now destruct (existsb is_heading (descendants b)).
Qed.

Lemma heading_only_gives_empty_text :
  structure heading_only_soup = Ok ""%string.
Proof.
  exact (nothing_collected_gives_empty_text heading_only_soup
           heading_only_body eq_refl eq_refl eq_refl).
Defined.

Section Substrings.

Lemma prefix_app (p s : string) : prefix p (p ++ s) = true.
Proof.
  induction p as [|c p IH]; simpl; [now destruct s|].
  destruct (ascii_dec c c) as [_|N]; [exact IH | now elim N].
Qed.

Lemma prefix_split (p : string) :
  forall s, prefix p s = true -> exists t, s = (p ++ t)%string.
Proof.
  induction p as [|c p IH]; intros s H.
  - now exists s.
  - destruct s as [|d s]; [discriminate|]. simpl in H.
    destruct (ascii_dec c d) as [<-|]; [|discriminate].
    destruct (IH s H) as (t & ->). now exists t.
Qed.

Lemma prefix_contains (p s : string) :
  prefix p s = true -> contains p s = true.
Proof. intros H. destruct s; cbn [contains]; now rewrite H. Qed.

Lemma contains_app (p a b : string) : contains p (a ++ p ++ b) = true.
Proof.
  induction a as [|c a IH].
  - change (contains p (p ++ b) = true). apply prefix_contains, prefix_app.
  - cbn [append contains]. rewrite IH. apply orb_true_r.
Qed.

Lemma contains_split (p : string) :
  forall s, contains p s = true ->
            exists a b, s = (a ++ p ++ b)%string.
Proof.
  induction s as [|c s IH]; cbn [contains]; intros H.
  - rewrite orb_false_r in H. destruct (prefix_split _ _ H) as (t & E).
    exists ""%string, t. exact E.
  - apply orb_true_iff in H. destruct H as [H | H].
    + destruct (prefix_split _ _ H) as (t & E).
      exists ""%string, t. exact E.
    + destruct (IH H) as (a & b & ->).
      now exists (String c a), b.
Qed.

Lemma lstrip_app (a t : string) :
  starts_clean t -> t <> ""%string -> lstrip (a ++ t) = (lstrip a ++ t)%string.
Proof.
  intros Hc Hne. induction a as [|c a IH]; simpl.
  - now apply starts_clean_lstrip.
  - destruct (is_space c); [exact IH | reflexivity].
Qed.

Lemma rstrip_fixed_tail (c : ascii) (u : string) :
  u <> ""%string -> rstrip (String c u) = String c u -> rstrip u = u.
Proof.
  intros Hne H. simpl in H. destruct (rstrip u) as [|d r] eqn:E.
  - destruct (is_space c); [discriminate|].
    injection H as H. congruence.
  - now injection H as H.
Qed.

Lemma rstrip_app_l (u b : string) :
  rstrip u = u -> u <> ""%string -> rstrip (u ++ b) = (u ++ rstrip b)%string.
Proof.
  induction u as [|c u IH]; intros Hu Hne; [congruence|].
  destruct u as [|d u].
  - simpl in Hu. destruct (is_space c) eqn:Ec; [discriminate|].
    simpl append. now apply rstrip_cons_clean.
  - assert (Hu' : rstrip (String d u) = String d u)
      by (apply (rstrip_fixed_tail c); [discriminate | exact Hu]).
    specialize (IH Hu' ltac:(discriminate)).
    change (rstrip (String c (String d u ++ b))
            = String c (String d u ++ rstrip b)).
    remember (String d u) as v. simpl. rewrite IH.
    destruct (v ++ rstrip b)%string eqn:E; [|reflexivity].
    apply append_eq_nil in E. destruct E as (E & _). subst v. discriminate.
Qed.

(** Trimming a string keeps, untouched, any piece of it that itself begins
    and ends with a character that is not white space. *)
Lemma strip_around (a d b : string) :
  tight d -> strip (a ++ d ++ b) = (lstrip a ++ d ++ rstrip b)%string.
Proof.
  intros Hd. pose proof (tight_starts_clean _ Hd) as Hc.
  destruct Hd as (_ & Hr & Hne). unfold strip.
  rewrite lstrip_app.
  - rewrite <- append_assoc, rstrip_app_l.
    + now rewrite append_assoc.
    + now apply rstrip_app.
    + intros E. apply append_eq_nil in E. tauto.
  - destruct d; [congruence | exact Hc].
  - intros E. apply append_eq_nil in E. tauto.
Qed.

Lemma social_domains_tight : Forall tight social_domains.
Proof. repeat constructor; try reflexivity; discriminate. Qed.

Lemma is_social_strip (href : string) :
  is_social href = true -> is_social (strip href) = true.
Proof.
  unfold is_social. rewrite !existsb_exists. intros (d & Hd & Hc).
  exists d. split; [exact Hd|].
  destruct (contains_split _ _ Hc) as (a & b & ->).
  rewrite strip_around.
  - apply contains_app.
  - pose proof social_domains_tight as H. rewrite Forall_forall in H.
    now apply H.
Qed.

End Substrings.

(** X4.  Every line of the links block names a social platform: each
    collected address, trimmed as it is stored, still contains one of the
    seven domain markers. *)
Theorem collected_links_contain_a_marker :
  forall (soup : PageElement) (x : string),
    In x (collect_social_links (decompose_all noise_tags soup)) ->
    exists domain, In domain social_domains /\ contains domain x = true.
Proof.
  intros soup x Hx.
  destruct (collect_fold (anchor_hrefs (decompose_all noise_tags soup)) []
              (NoDup_nil _)) as (_ & Hin).
  apply Hin in Hx. destruct Hx as [[] | (href & _ & Hs & ->)].
  apply is_social_strip in Hs. unfold is_social in Hs.
  apply existsb_exists in Hs. exact Hs.
Qed.

Lemma collected_links_contain_a_marker_example :
  exists domain,
    In domain social_domains /\
    contains domain "https://twitter.com/x" = true.
Proof.
  apply (collected_links_contain_a_marker spaced_href_soup).
  left. reflexivity.
Defined.

(** X5.  The test for a social address is a plain substring test: an
    anchor whose address holds a marker anywhere (in the host, the path or
    the query) is collected, trimmed. *)
Theorem marker_anywhere_in_address_is_collected :
  forall (soup : PageElement) (domain before after : string),
    In domain social_domains ->
    In (before ++ domain ++ after)%string
       (anchor_hrefs (decompose_all noise_tags soup)) ->
    In (lstrip before ++ domain ++ rstrip after)%string
       (collect_social_links (decompose_all noise_tags soup)).
Proof.
  intros soup d a b Hd Hin.
  destruct (collect_fold (anchor_hrefs (decompose_all noise_tags soup)) []
              (NoDup_nil _)) as (_ & H).
  apply H. right. exists (a ++ d ++ b)%string. split; [exact Hin|]. split.
  - unfold is_social. apply existsb_exists. exists d.
    split; [exact Hd | apply contains_app].
  - symmetry. apply strip_around.
    pose proof social_domains_tight as T. rewrite Forall_forall in T.
    now apply T.
Qed.

Lemma marker_anywhere_in_address_is_collected_example :
  In "https://twitter.com/x"%string
     (collect_social_links (decompose_all noise_tags overview_soup)).
Proof.
  exact (marker_anywhere_in_address_is_collected overview_soup
           "twitter.com" "https://" "/x"
           (or_intror (or_introl eq_refl)) (or_introl eq_refl)).
Defined.

Section LinkOrder.

Lemma sorted_unique (l : list string) :
  forall l', StronglySorted str_le l -> StronglySorted str_le l' ->
             Permutation l l' -> l = l'.
Proof.
  induction l as [|x r IH]; intros l' Hs Hs' Hp.
  - apply Permutation_nil in Hp. now subst.
  - destruct l' as [|y r'].
    + apply Permutation_sym, Permutation_nil in Hp. discriminate.
    + inversion Hs as [|? ? Hr Hx]; subst.
      inversion Hs' as [|? ? Hr' Hy]; subst.
      rewrite Forall_forall in Hx, Hy.
      assert (E : x = y).
      { assert (Hxin : In x (y :: r'))
          by (apply (Permutation_in _ Hp); now left).
        assert (Hyin : In y (x :: r))
          by (apply (Permutation_in _ (Permutation_sym Hp)); now left).
        destruct Hxin as [E | Hxin]; [now symmetry|].
        destruct Hyin as [E | Hyin]; [exact E|].
        apply String.leb_antisym; [now apply Hx | now apply Hy]. }
      subst y. f_equal. apply IH; [exact Hr | exact Hr'|].
      now apply Permutation_cons_inv with (a := x).
Qed.

Lemma sorted_of_permutation (l l' : list string) :
  Permutation l l' -> sorted l = sorted l'.
Proof.
  intros Hp. apply sorted_unique; try apply sorted_ordered.
  eapply Permutation_trans; [apply Permutation_sym, sorted_perm|].
  eapply Permutation_trans; [exact Hp | apply sorted_perm].
Qed.

Lemma collect_of_permutation (hrefs hrefs' : list string) :
  Permutation hrefs hrefs' ->
  Permutation (fold_left collect_step hrefs [])
              (fold_left collect_step hrefs' []).
Proof.
  intros Hp.
  destruct (collect_fold hrefs [] (NoDup_nil _)) as (Hn & Hi).
  destruct (collect_fold hrefs' [] (NoDup_nil _)) as (Hn' & Hi').
  apply NoDup_Permutation; [exact Hn | exact Hn'|].
  intros x. rewrite Hi, Hi'. split.
  - intros [[] | (h & Hh & Hs & ->)]. right. exists h.
    split; [now apply (Permutation_in _ Hp) | now split].
  - intros [[] | (h & Hh & Hs & ->)]. right. exists h.
    split; [now apply (Permutation_in _ (Permutation_sym Hp)) | now split].
Qed.

End LinkOrder.

(** X6.  The block of the links does not depend on the order in which the
    anchors stand in the document (nor, therefore, on the order in which a
    set hands out its members): the same addresses in another order give
    the same block. *)
Theorem links_block_ignores_anchor_order :
  forall hrefs hrefs' : list string,
    Permutation hrefs hrefs' ->
    links_block (fold_left collect_step hrefs [])
    = links_block (fold_left collect_step hrefs' []).
Proof.
  intros hrefs hrefs' Hp. unfold links_block. do 3 f_equal.
  now apply sorted_of_permutation, collect_of_permutation.
Qed.

Lemma links_block_ignores_anchor_order_example :
  links_block
    (fold_left collect_step
       ["https://twitter.com/x"; "https://facebook.com/y"]%string [])
  = links_block
      (fold_left collect_step
         ["https://facebook.com/y"; "https://twitter.com/x"]%string []).
Proof.
  apply links_block_ignores_anchor_order. apply perm_swap.
Defined.

Section TrimmedBlocks.

Lemma tight_after_title (title body : string) :
  tight body -> tight ("=== " ++ title ++ " ===" ++ nl ++ body).
Proof.
  intros Hb. destruct Hb as (_ & Hr & Hne). repeat split.
  - replace ("=== " ++ title ++ " ===" ++ nl ++ body)%string
      with (("=== " ++ title ++ " ===" ++ nl) ++ body)%string
      by (now rewrite !append_assoc).
    now apply rstrip_app.
  - discriminate.
Qed.

Lemma section_texts_tight (l : list PageElement) :
  Forall (fun sec => Forall tight (snd sec)) (headed_sections l).
Proof.
  induction l as [|e r IH]; simpl; [constructor|].
  destruct (is_heading e); [|exact IH].
  constructor; [apply texts_until_heading_tight | exact IH].
Qed.

End TrimmedBlocks.


(** X7.  Every block the walk emits is non-empty and neither begins nor
    ends with white space, because every text appended to a block is so:
    the [strip] applied to the joined texts changes nothing (the body of a
    heading block is the texts joined by single spaces), and the filter of
    empty blocks before the final join removes nothing. *)
Theorem emitted_blocks_are_trimmed :
  forall l : list PageElement,
    Forall tight (walk l) /\
    walk l =
      (map (fun sec =>
              ("=== " ++ upper (get_text_strip (fst sec)) ++ " ===" ++ nl
                 ++ join " " (snd sec))%string)
           (filter has_content (headed_sections l))
       ++ unlabeled_blocks l)%list /\
    filter truthy (walk l) = walk l.
Proof.
  intros l.
  assert (Hsec : forall sec,
             In sec (filter has_content (headed_sections l)) ->
             tight (join " " (snd sec))).
  { intros sec Hin. apply filter_In in Hin. destruct Hin as (Hin & Hc).
    pose proof (section_texts_tight l) as H. rewrite Forall_forall in H.
    apply tight_join; [|now apply H].
    unfold has_content in Hc. destruct (snd sec); [discriminate|congruence]. }
  assert (Hlab : labeled_blocks l =
                 map (fun sec =>
                        ("=== " ++ upper (get_text_strip (fst sec)) ++ " ==="
                           ++ nl ++ join " " (snd sec))%string)
                     (filter has_content (headed_sections l))).
  { unfold labeled_blocks. apply map_ext_in. intros sec Hin.
    now rewrite (tight_strip _ (Hsec sec Hin)). }
  split; [|split].
  - rewrite walk_by_sections, Hlab. apply Forall_app. split.
    + apply Forall_forall. intros x Hx. apply in_map_iff in Hx.
      destruct Hx as (sec & <- & Hin). apply tight_after_title.
      now apply Hsec.
    + unfold unlabeled_blocks.
      destruct (existsb is_heading l); [constructor|].
      destruct (texts_until_heading l) eqn:E; [constructor|].
      rewrite <- E. constructor; [|constructor].
      apply tight_join; [congruence | apply texts_until_heading_tight].
  - now rewrite walk_by_sections, Hlab.
  - apply walk_truthy.
Qed.

Section HeadingWithContainer.

Local Open Scope list_scope.

Lemma headed_sections_at (l1 : list PageElement) (h : PageElement)
      (l2 : list PageElement) :
  is_heading h = true ->
  In (h, texts_until_heading l2) (headed_sections (l1 ++ h :: l2)).
Proof.
  intros Hh. induction l1 as [|e r IH]; simpl.
  - rewrite Hh. now left.
  - destruct (is_heading e); [right|]; exact IH.
Qed.

Lemma texts_until_heading_app (l1 l2 : list PageElement) :
  existsb is_heading l1 = false ->
  texts_until_heading (l1 ++ l2)
  = flat_map container_text l1 ++ texts_until_heading l2.
Proof.
  induction l1 as [|e r IH]; simpl; [reflexivity|].
  destruct (is_heading e); simpl; [discriminate|].
  intros H. now rewrite IH, app_assoc.
Qed.

End HeadingWithContainer.

(** X8.  A heading that holds a container with non-empty text (and no
    heading inside it) always gets a block, even when nothing follows it:
    the container is visited after the heading, so its text, which is part
    of the title, is also collected into the body of that block. *)
Theorem container_inside_heading_fills_its_block :
  forall b h c : PageElement,
    In h (descendants b) ->
    is_heading h = true ->
    existsb is_heading (descendants h) = false ->
    In c (descendants h) ->
    is_container c = true ->
    get_text_strip c <> ""%string ->
    exists blk : list string,
      In (get_text_strip c) blk /\
      In (h, blk) (headed_sections (descendants b)) /\
      In ("=== " ++ upper (get_text_strip h) ++ " ===" ++ nl
            ++ strip (join " " blk))%string
         (walk (descendants b)).
Proof.
  intros b h c Hh Hhead Hno Hc Hcont Hne.
  destruct (descendants_split _ _ Hh) as (l1 & l2 & E).
  set (blk := texts_until_heading (descendants h ++ l2)).
  assert (Hin : In (get_text_strip c) blk).
  { unfold blk. rewrite texts_until_heading_app by exact Hno.
    apply in_or_app. left. apply in_flat_map. exists c.
    split; [exact Hc | now apply container_text_in]. }
  assert (Hsec : In (h, blk) (headed_sections (descendants b))).
  { rewrite E. now apply headed_sections_at. }
  exists blk. split; [exact Hin|]. split; [exact Hsec|].
  rewrite walk_by_sections. apply in_or_app. left.
  unfold labeled_blocks. apply in_map_iff. exists (h, blk).
  split; [reflexivity|]. apply filter_In. split; [exact Hsec|].
  unfold has_content. simpl. destruct blk; [contradiction | reflexivity].
Qed.

Lemma container_inside_heading_fills_its_block_example :
  structure span_heading_soup = Ok ("=== TITLE ===" ++ nl ++ "Title")%string /\
  exists blk : list string,
    In "Title"%string blk /\
    In (span_heading, blk) (headed_sections (descendants span_heading_body)).
Proof.
  split; [reflexivity|].
  assert (Hne : get_text_strip span_in_heading <> ""%string) by discriminate.
  destruct (container_inside_heading_fills_its_block
              span_heading_body span_heading span_in_heading
              (or_introl eq_refl) eq_refl eq_refl (or_introl eq_refl)
              eq_refl Hne) as (blk & H1 & H2 & _).
  exists blk. split; [exact H1 | exact H2].
Defined.

Section FirstCharacter.

Local Open Scope list_scope.



End FirstCharacter.



(* ================================================================== *)
(** ** Further properties of the handler of the button *)

Section HandlerPaths.

Local Open Scope list_scope.

Variable w : World.

Lemma extract_on_success (url doc : string) (st : app_state) :
  fst (App.scrape w url st) = Ok doc ->
  App.extract_visible_text w url st
  = (Ok doc,
     {| chat_history := chat_history st; last_url := last_url st;
        session_response := session_response st;
        trace := trace st ++ [EvHttpGet url] |}).
Proof.
  intros H. unfold App.extract_visible_text, try_except.
  pose proof (scrape_state w url st) as Hs.
  destruct (App.scrape w url st) as (r & st'). simpl in H, Hs.
  now subst r st'.
Qed.

(** X10.  The handler tells a failure from a document by the first five
    characters alone: when the scrape succeeds with a text that begins
    with [ERROR], the handler shows that text as an error and as the
    answer, stores the exchange, and makes no request to the language
    model. *)
Theorem document_beginning_with_ERROR_is_shown_as_failure :
  forall (url doc : string) (st : app_state),
    startswith url "http" = true ->
    fst (App.scrape w url st) = Ok doc ->
    startswith doc "ERROR" = true ->
    let st' := snd (App.on_extract w url st) in
    session_response st' = doc /\
    chat_history st'
    = chat_history st ++ [("user", url); ("bot", doc)]%string /\
    trace st'
    = trace st ++ [EvHttpGet url; EvError doc; EvUpsert (chat_history st')].
Proof.
  intros url doc st Hhttp Hdoc Herr st'.
  assert (E : st' =
              {| chat_history :=
                   chat_history st ++ [("user", url); ("bot", doc)]%string;
                 last_url := url;
                 session_response := doc;
                 trace := trace st ++
                   [EvHttpGet url; EvError doc;
                    EvUpsert (chat_history st ++
                                [("user", url); ("bot", doc)]%string)] |}).
  { unfold st', App.on_extract, mbind, App.set_last_url, App.chat_append.
    rewrite Hhttp.
    cbn [negb chat_history last_url session_response trace].
    cbv beta iota.
    match goal with
    | |- context [App.extract_visible_text w url ?s] =>
        rewrite (extract_on_success url doc s)
          by (rewrite (scrape_result w url s st); exact Hdoc)
    end.
    rewrite Herr.
    unfold emit, ret, App.set_response, App.save_to_cosmos, mbind, emit,
      lift. simpl.
    rewrite <- !app_assoc. reflexivity. }
  rewrite E. simpl. repeat split.
Qed.

(** X11.  When the scrape succeeds with a text that does not begin with
    [ERROR], the handler goes on to the cleaning step, whose [NameError]
    ends it: the user's message has been recorded and the one request
    made, but no answer is recorded or shown and nothing is stored. *)
Theorem successful_scrape_ends_in_name_error :
  forall (url doc : string) (st : app_state),
    startswith url "http" = true ->
    fst (App.scrape w url st) = Ok doc ->
    startswith doc "ERROR" = false ->
    App.on_extract w url st
    = (Raise (mkExc NameError "name 'GPT_DEPLOYMENT_NAME' is not defined"),
       {| chat_history := chat_history st ++ [("user", url)]%string;
          last_url := url;
          session_response := session_response st;
          trace := trace st ++ [EvHttpGet url] |}).
Proof.
  intros url doc st Hhttp Hdoc Herr.
  unfold App.on_extract, mbind, App.set_last_url, App.chat_append.
  rewrite Hhttp.
  cbn [negb chat_history last_url session_response trace].
  cbv beta iota.
  match goal with
  | |- context [App.extract_visible_text w url ?s] =>
      rewrite (extract_on_success url doc s)
        by (rewrite (scrape_result w url s st); exact Hdoc)
  end.
  rewrite Herr. reflexivity.
Qed.


(** X13.  A page that is served with a status below 400 and parsed gives,
    through [extract_visible_text], exactly what the routine makes of the
    parsed document, be it the text or the tagged error of a document
    without a body; one request is made. *)
Theorem extract_visible_text_of_served_page :
  forall (url : string) (st : app_state) (r : response)
         (soup : PageElement),
    requests_get w url = Ok r ->
    status_code r < 400 ->
    BeautifulSoup w (text r) = Ok soup ->
    fst (App.extract_visible_text w url st)
    = Ok (match structure soup with
          | Ok doc => doc
          | Raise e =>
              ("ERROR: An unexpected error occurred during scraping: "
                 ++ exc_msg e)%string
          end) /\
    trace (snd (App.extract_visible_text w url st))
    = trace st ++ [EvHttpGet url].
Proof.
  intros url st r soup Hget Hst Hparse.
  split; [|apply extract_trace].
  assert (Hs : fst (App.scrape w url st) = structure soup).
  { unfold App.scrape, mbind, emit, lift. simpl. rewrite Hget.
    unfold App.raise_for_status.
    assert (E : (400 <=? status_code r)%nat = false)
      by (apply Nat.leb_gt; exact Hst).
    rewrite E. simpl. rewrite Hparse. reflexivity. }
  destruct (structure soup) as [doc|e] eqn:Es.
  - now rewrite (extract_on_success url doc st Hs).
  - rewrite (extract_on_failure w url e st Hs). simpl.
    unfold structure in Es.
    destruct (body (decompose_all noise_tags soup)); [discriminate|].
    injection Es as <-. reflexivity.
Qed.

End HandlerPaths.

Lemma document_beginning_with_ERROR_is_shown_as_failure_example :
  fst (App.scrape (serving error_text_soup) "https://example.com" fresh_app)
  = Ok "ERROR codes explained"%string /\
  trace (snd (App.on_extract (serving error_text_soup)
                "https://example.com" fresh_app))
  = [EvHttpGet "https://example.com"; EvError "ERROR codes explained";
     EvUpsert [("user", "https://example.com");
               ("bot", "ERROR codes explained")]%string].
Proof.
  split; [reflexivity|].
  exact (proj2 (proj2
           (document_beginning_with_ERROR_is_shown_as_failure
              (serving error_text_soup) "https://example.com"
              "ERROR codes explained" fresh_app eq_refl eq_refl eq_refl))).
Defined.

Lemma successful_scrape_ends_in_name_error_example :
  trace (snd (App.on_extract (serving just_text_soup)
                "https://example.com" fresh_app))
  = [EvHttpGet "https://example.com"] /\
  chat_history (snd (App.on_extract (serving just_text_soup)
                       "https://example.com" fresh_app))
  = [("user", "https://example.com")]%string.
Proof.
  rewrite (successful_scrape_ends_in_name_error (serving just_text_soup)
             "https://example.com" "Just text" fresh_app
             eq_refl eq_refl eq_refl).
  split; reflexivity.
Defined.


Lemma extract_visible_text_of_served_page_example :
  fst (App.extract_visible_text (serving bodyless_soup)
         "https://example.com" fresh_app)
  = Ok ("ERROR: An unexpected error occurred during scraping: "
          ++ "'NoneType' object has no attribute 'descendants'")%string.
Proof.
  assert (H : 200 < 400) by lia.
  exact (proj1 (extract_visible_text_of_served_page
                  (serving bodyless_soup) "https://example.com" fresh_app
                  (mkResponse 200 "OK" "") bodyless_soup
                  eq_refl H eq_refl)).
Defined.

(* ================================================================== *)
(** ** What the walk reads and what it returns *)

Section WalkInput.

Local Open Scope list_scope.

Lemma visit_not_acted_on (st : walk_state) (e : PageElement) :
  acted_on e = false -> visit st e = st.
Proof.
  unfold acted_on. intros H. apply orb_false_iff in H.
  destruct H as (Hh & Hc). rewrite visit_other by exact Hh.
  unfold container_text. destruct (is_container e); simpl in Hc.
  - rewrite Hc, app_nil_r. now destruct st.
  - rewrite app_nil_r. now destruct st.
Qed.

Lemma fold_visit_acted_on (l : list PageElement) :
  forall st, fold_left visit l st = fold_left visit (filter acted_on l) st.
Proof.
  induction l as [|e r IH]; intros st; [reflexivity|]. simpl.
  destruct (acted_on e) eqn:E; simpl; [apply IH|].
  rewrite visit_not_acted_on by exact E. apply IH.
Qed.

End WalkInput.

(** X14.  The walk reads headings and containers with text and nothing
    else: every other node (a string, a comment, an element of another
    kind such as a table cell, a link or a list, a container with no text)
    can be taken out of the sequence without changing the blocks, so text
    that lies in no p, li, div or span is not extracted. *)
Theorem walk_reads_headings_and_containers_only :
  forall l : list PageElement,
    walk l = walk (filter acted_on l) /\
    forall (l1 l2 : list PageElement) (e : PageElement),
      is_heading e = false -> is_container e = false ->
      walk (l1 ++ e :: l2) = walk (l1 ++ l2).
Proof.
  intros l. split.
  - unfold walk. now rewrite fold_visit_acted_on.
  - intros l1 l2 e Hh Hc. unfold walk.
    rewrite !fold_left_app. simpl. rewrite visit_not_acted_on; [reflexivity|].
    unfold acted_on. now rewrite Hh, Hc.
Qed.

Lemma walk_reads_headings_and_containers_only_example :
  walk (descendants (Tag "body" [] [table_node; kept_text_paragraph]))
  = ["kept"%string].
Proof.
  rewrite (proj1 (walk_reads_headings_and_containers_only _)).
  reflexivity.
Defined.

Section ReturnedText.

Local Open Scope list_scope.




End ReturnedText.



Section HandlerReach.

Local Open Scope list_scope.

Variable w : World.

(** X17.  As the program stands, no run of the handler reaches the
    language model, the success message or the download buttons.  Whatever
    the input and whatever the collaborators answer, the calls it adds are
    one of three sequences: the validation message and one write to the
    store; one request for the page, one error message and one write to the
    store; or the one request alone, when the cleaning step raises.  So
    there is at most one request, one error message and one write. *)
Theorem handler_never_reaches_the_model :
  forall (user_input : string) (st : app_state),
    let st' := snd (App.on_extract w user_input st) in
    exists added : list event,
      trace st' = trace st ++ added /\
      (added = [EvError App.validation_message; EvUpsert (chat_history st')]
       \/ (exists msg,
              added = [EvHttpGet user_input; EvError msg;
                       EvUpsert (chat_history st')])
       \/ added = [EvHttpGet user_input]) /\
      forallb reachable_call added = true.
Proof.
  intros user_input st. cbv zeta.
  unfold App.on_extract, mbind, App.set_last_url, App.chat_append.
  destruct (startswith user_input "http") eqn:Hhttp;
    cbn [negb chat_history last_url session_response trace];
    cbv beta iota.
  - match goal with
    | |- context [App.extract_visible_text w user_input ?s] =>
        set (s0 := s);
        destruct (fst (App.scrape w user_input s0)) as [doc|e] eqn:Hs
    end.
    + rewrite (extract_on_success w user_input doc s0 Hs).
      destruct (startswith doc "ERROR") eqn:Herr.
      * unfold emit, ret, App.set_response, App.save_to_cosmos, mbind, emit,
          lift. simpl. rewrite <- !app_assoc. simpl.
        eexists. split; [reflexivity|].
        split; [right; left; eexists; reflexivity | reflexivity].
      * simpl. eexists. split; [reflexivity|].
        split; [right; right; reflexivity | reflexivity].
    + rewrite (extract_on_failure w user_input e s0 Hs).
      destruct (error_text_prefix e) as (_ & H2). rewrite H2.
      unfold emit, ret, App.set_response, App.save_to_cosmos, mbind, emit,
        lift. simpl. rewrite <- !app_assoc. simpl.
      eexists. split; [reflexivity|].
      split; [right; left; eexists; reflexivity | reflexivity].
  - unfold emit, ret, App.set_response, App.save_to_cosmos, mbind, emit,
      lift. simpl. rewrite <- !app_assoc. simpl.
    eexists. split; [reflexivity|].
    split; [left; reflexivity | reflexivity].
Qed.

End HandlerReach.

(* ================================================================== *)
(** ** Trimming and capitals, character by character *)

Section Characters.

Lemma all_space_app (a b : string) :
  all_space (a ++ b) = all_space a && all_space b.
Proof.
  induction a as [|c a IH]; simpl; [reflexivity|].
  now rewrite IH, andb_assoc.
Qed.

Lemma lstrip_split (s : string) :
  exists l, s = (l ++ lstrip s)%string /\ all_space l = true.
Proof.
  induction s as [|c s (l & E & H)]; simpl.
  - now exists ""%string.
  - destruct (is_space c) eqn:Ec.
    + exists (String c l). simpl. rewrite Ec, H. split; [congruence|reflexivity].
    + now exists ""%string.
Qed.

Lemma rstrip_split (s : string) :
  exists r, s = (rstrip s ++ r)%string /\ all_space r = true.
Proof.
  induction s as [|c s (r & E & H)]; simpl.
  - now exists ""%string.
  - destruct (rstrip s) as [|d v] eqn:Er.
    + simpl in E. subst r. destruct (is_space c) eqn:Ec.
      * exists (String c s). simpl. now rewrite Ec, H.
      * now exists s.
    + exists r. split; [|exact H]. rewrite E at 1. reflexivity.
Qed.

(** What [strip] removes is white space at the two ends, and nothing
    else. *)
Lemma strip_split (s : string) :
  exists l r, s = (l ++ strip s ++ r)%string
              /\ all_space l = true /\ all_space r = true.
Proof.
  destruct (lstrip_split s) as (l & El & Hl).
  destruct (rstrip_split (lstrip s)) as (r & Er & Hr).
  exists l, r. unfold strip. now rewrite <- Er, <- El.
Qed.

Lemma lstrip_all_space (s : string) : all_space s = true -> lstrip s = ""%string.
Proof.
  induction s as [|c s IH]; simpl; [reflexivity|].
  intros H. apply andb_true_iff in H. destruct H as (Hc & Hs).
  rewrite Hc. now apply IH.
Qed.

Lemma strip_empty_iff (s : string) :
  strip s = ""%string <-> all_space s = true.
Proof.
  split.
  - intros E. destruct (strip_split s) as (l & r & Es & Hl & Hr).
    rewrite E in Es. rewrite Es, all_space_app. simpl. now rewrite Hl, Hr.
  - intros H. unfold strip. now rewrite lstrip_all_space.
Qed.

Lemma rstrip_fixed_ends (s : string) :
  rstrip s = s -> ends_with_space s = false.
Proof.
  induction s as [|c s IH]; [reflexivity|]. intros H.
  destruct s as [|d v].
  - simpl in *. destruct (is_space c); [discriminate | reflexivity].
  - change (ends_with_space (String d v) = false). apply IH.
    apply (rstrip_fixed_tail c); [discriminate | exact H].
Qed.

Lemma tight_trimmed (s : string) : tight s -> trimmed s.
Proof.
  intros Ht. pose proof (tight_starts_clean _ Ht) as Hc.
  destruct Ht as (_ & Hr & _). split.
  - destruct s; [reflexivity | exact Hc].
  - now apply rstrip_fixed_ends.
Qed.

Lemma get_text_strip_trimmed (e : PageElement) : trimmed (get_text_strip e).
Proof.
  destruct (truthy (get_text_strip e)) eqn:E.
  - now apply tight_trimmed, get_text_strip_tight.
  - apply truthy_false in E. rewrite E. now split.
Qed.

Lemma join_empty_nil (l : list string) :
  Forall tight l -> join "" l = ""%string -> l = [].
Proof.
  intros Ht E. destruct l as [|x r]; [reflexivity|].
  assert (H : tight (join "" (x :: r)))
    by (apply tight_join; [discriminate | exact Ht]).
  destruct H as (_ & _ & H). congruence.
Qed.

Lemma stripped_nil_iff (l : list string) :
  stripped l = [] <-> forall s, In s l -> all_space s = true.
Proof.
  unfold stripped. induction l as [|x r IH]; simpl.
  - split; [intros _ s [] | reflexivity].
  - destruct (truthy (strip x)) eqn:E.
    + split; [discriminate|]. intros H.
      assert (Hx : all_space x = true) by (apply H; now left).
      apply strip_empty_iff in Hx. rewrite Hx in E. discriminate.
    + apply truthy_false, strip_empty_iff in E. rewrite IH. split.
      * intros H s [<- | Hs]; [exact E | now apply H].
      * intros H s Hs. apply H. now right.
Qed.

(** A container adds nothing to a block exactly when all the strings
    below it are white space (or there is none). *)
Lemma container_text_nil_iff (e : PageElement) :
  is_container e = true ->
  (container_text e = [] <->
   forall s, In s (all_strings e) -> all_space s = true).
Proof.
  intros Hc. unfold container_text. rewrite Hc.
  rewrite <- stripped_nil_iff. unfold get_text_strip.
  destruct (truthy (join "" (stripped (all_strings e)))) eqn:E.
  - split; [discriminate|]. intros H. rewrite H in E. discriminate.
  - split; [|reflexivity]. intros _. apply truthy_false in E.
    apply join_empty_nil; [apply stripped_tight | exact E].
Qed.

Lemma upper_char_capital (c : ascii) : capital_of c (upper_char c).
Proof.
  unfold capital_of, upper_char.
  destruct ((97 <=? nat_of_ascii c) && (nat_of_ascii c <=? 122))%nat eqn:E;
    [|reflexivity].
  apply nat_ascii_embedding.
  apply andb_true_iff in E. destruct E as (_ & E). apply Nat.leb_le in E. lia.
Qed.

Lemma upper_capitals (t : string) : capitals_of t (upper t).
Proof.
  induction t as [|c t IH]; simpl; [exact I|].
  split; [apply upper_char_capital | exact IH].
Qed.

End Characters.

(* ================================================================== *)
(** ** Blocks of the headings of the filtered body *)

Section HeadingBlocks.

Local Open Scope list_scope.

Lemma headed_sections_split (l1 : list PageElement) (h : PageElement)
      (l2 : list PageElement) :
  is_heading h = true ->
  exists before,
    headed_sections (l1 ++ h :: l2)
    = before ++ (h, texts_until_heading l2) :: headed_sections l2.
Proof.
  intros Hh. induction l1 as [|e r (before & IH)]; simpl.
  - exists []. now rewrite Hh.
  - destruct (is_heading e).
    + exists ((e, texts_until_heading (r ++ h :: l2)) :: before).
      simpl. now rewrite IH.
    + now exists before.
Qed.

Lemma white_space_containers_give_no_text (mid : list PageElement) :
  (forall e s, In e mid -> is_container e = true ->
               In s (all_strings e) -> all_space s = true) ->
  flat_map container_text mid = [].
Proof.
  induction mid as [|e r IH]; intros H; [reflexivity|]. simpl.
  rewrite IH by (intros e' s He'; apply H; now right).
  rewrite app_nil_r.
  destruct (is_container e) eqn:Hc.
  - apply container_text_nil_iff; [exact Hc|].
    intros s Hs. apply (H e s); [now left | exact Hc | exact Hs].
  - unfold container_text. now rewrite Hc.
Qed.

Lemma section_texts_from_containers (l : list PageElement) :
  forall sec txt, In sec (headed_sections l) -> In txt (snd sec) -> tight txt.
Proof.
  intros sec txt Hsec Htxt.
  pose proof (section_texts_tight l) as H. rewrite Forall_forall in H.
  specialize (H sec Hsec). rewrite Forall_forall in H. now apply H.
Qed.

(** C1 as stated, over every input, fails where a heading stands in a
    denylisted element: the header of [header_heading_soup] holds a
    heading followed by a paragraph with text, and the routine returns the
    text of the page without any titled block. *)
Lemma heading_in_header_gets_no_block :
  ~ every_heading_gets_a_block header_heading_soup.
Proof.
  unfold every_heading_gets_a_block. vm_compute. discriminate.
Qed.

Example header_heading_output :
  structure header_heading_soup = Ok "text"%string /\
  raw_headings_with_text header_heading_soup = 1 /\
  heading_blocks_emitted header_heading_soup = 0.
Proof. repeat split. Qed.

Example bodyless_heading_gets_no_block :
  raw_headings_with_text bodyless_soup = 1 /\
  heading_blocks_emitted bodyless_soup = 0 /\
  structure bodyless_soup
  = Raise (mkExc AttributeError
             "'NoneType' object has no attribute 'descendants'").
Proof. repeat split. Qed.

(** C1, amended.  Let the noise-filtered document have a body, cut the
    nodes below the body at the heading elements (h1..h6), and let N be the
    number of headings followed, before the next heading, by at least one
    container with non-empty text.  Then the walk yields exactly N
    heading-labeled blocks, in the order of those headings, each made of
    the title line [=== T ===], a line feed, and the texts joined by
    spaces; the returned text is these blocks (or the residual block of a
    document without heading) followed by the block of the links if any.
    T is the text of the heading without white space at its ends and with
    every letter a-z replaced by its capital; for a heading that holds one
    string, what is removed from the string is white space at its two ends
    and nothing else.  A container adds a text exactly when one of its
    strings is not white space, and every text added is non-empty and
    without white space at its ends.  A heading followed, up to the next
    heading or the end, only by containers of white space or without
    strings has an empty section and no block. *)
Theorem filtered_body_headings_yield_trimmed_blocks :
  forall soup b : PageElement,
    body (decompose_all noise_tags soup) = Some b ->
    let sections := headed_sections (descendants b) in
    let with_text := filter has_content sections in
    let N := List.length with_text in
    let titled :=
      map (fun sec =>
             ("=== " ++ upper (get_text_strip (fst sec)) ++ " ===" ++ nl
                ++ strip (join " " (snd sec)))%string) with_text in
    (forall sec, In sec with_text <-> In sec sections /\ snd sec <> []) /\
    List.length titled = N /\
    walk (descendants b) = titled ++ unlabeled_blocks (descendants b) /\
    (sections <> [] -> walk (descendants b) = titled) /\
    structure soup =
      Ok (join (nl ++ nl)
            (with_links (titled ++ unlabeled_blocks (descendants b))
               (collect_social_links (decompose_all noise_tags soup)))) /\
    (forall sec, In sec sections ->
                 trimmed (get_text_strip (fst sec)) /\
                 capitals_of (get_text_strip (fst sec))
                   (upper (get_text_strip (fst sec)))) /\
    (forall n a s,
        exists l r,
          s = (l ++ get_text_strip (Tag n a [NavigableString s]) ++ r)%string
          /\ all_space l = true /\ all_space r = true) /\
    (forall e, is_container e = true ->
               (container_text e = [] <->
                forall s, In s (all_strings e) -> all_space s = true)) /\
    (forall sec txt, In sec sections -> In txt (snd sec) ->
                     txt <> ""%string /\ trimmed txt) /\
    (forall (l1 : list PageElement) (h : PageElement)
            (mid rest : list PageElement),
        descendants b = l1 ++ h :: mid ++ rest ->
        is_heading h = true ->
        existsb is_heading mid = false ->
        (rest = [] \/ exists h' r, rest = h' :: r /\ is_heading h' = true) ->
        (forall e s, In e mid -> is_container e = true ->
                     In s (all_strings e) -> all_space s = true) ->
        exists before,
          sections = before ++ (h, []) :: headed_sections rest /\
          with_text = filter has_content before
                        ++ filter has_content (headed_sections rest)).
Proof.
  intros soup b Hb sections with_text N titled.
  assert (Hw : walk (descendants b)
               = titled ++ unlabeled_blocks (descendants b))
    by apply walk_by_sections.
  split; [|split; [|split; [|split; [|split;
    [|split; [|split; [|split; [|split]]]]]]]].
  - intros sec. unfold with_text. rewrite filter_In.
    unfold has_content. destruct (snd sec); intuition congruence.
  - unfold titled, N. apply length_map.
  - exact Hw.
  - intros Hne. rewrite Hw. unfold unlabeled_blocks.
    destruct (existsb is_heading (descendants b)) eqn:E;
      [apply app_nil_r|].
    exfalso. apply Hne. now apply no_heading_no_section.
  - rewrite <- Hw. now apply structure_body.
  - intros sec _. split; [apply get_text_strip_trimmed | apply upper_capitals].
  - intros n a s. rewrite get_text_strip_single. apply strip_split.
  - apply container_text_nil_iff.
  - intros sec txt Hsec Htxt.
    pose proof (section_texts_from_containers _ sec txt Hsec Htxt) as Ht.
    split; [now destruct Ht as (_ & _ & Hne) | now apply tight_trimmed].
  - intros l1 h mid rest E Hh Hmid Hrest Hws.
    destruct (headed_sections_split l1 h (mid ++ rest) Hh) as (before & Hs).
    assert (Ht : texts_until_heading (mid ++ rest) = []).
    { rewrite texts_until_heading_app by exact Hmid.
      rewrite (white_space_containers_give_no_text mid Hws). simpl.
      destruct Hrest as [-> | (h' & r & -> & Hh')]; simpl;
        [reflexivity | now rewrite Hh']. }
    assert (Hr : headed_sections (mid ++ rest) = headed_sections rest).
    { clear -Hmid. induction mid as [|e m IH]; simpl in *; [reflexivity|].
      apply orb_false_iff in Hmid. destruct Hmid as (He & Hm).
      rewrite He. now apply IH. }
    exists before. unfold with_text, sections.
    rewrite E, Hs, Ht, Hr. split; [reflexivity|].
    rewrite filter_app. simpl. reflexivity.
Qed.

End HeadingBlocks.

(** In [padded_soup] the first heading and its paragraph are written with
    white space around their texts, and the second heading is followed by a
    container of white space and an empty one: one block, trimmed. *)
Lemma padded_document_one_block :
  body (decompose_all noise_tags padded_soup) = Some padded_body /\
  walk (descendants padded_body)
  = [("=== OVERVIEW ===" ++ nl ++ "Hello")%string] /\
  structure padded_soup = Ok ("=== OVERVIEW ===" ++ nl ++ "Hello")%string.
Proof.
  split; [reflexivity|].
  pose proof (filtered_body_headings_yield_trimmed_blocks
                padded_soup padded_body eq_refl) as H.
  split.
  - exact (proj1 (proj2 (proj2 H))).
  - exact (proj1 (proj2 (proj2 (proj2 (proj2 H))))).
Defined.
